(** * aqt.xmlparser: the Updates.xml catalog, its dependency traversal
      and the module-to-package index

    A shallow embedding of [aqt/xmlparser.py].  Python values are modelled as
    follows.

    - [str] is [string]; a character is a code point below 256.
    - [None] in an [Optional] position is [None] of [option].
    - A raised exception is the [Raise] constructor of [outcome]; where the
      Python code has already mutated an object when it raises, the mutated
      object is returned next to the exception.
    - A [dict] is an insertion-ordered association list ([dict_set] keeps the
      position of a key that is already present, like CPython).
    - A one-shot generator object is the list of the items it has not yielded
      yet; a [for] loop over it leaves it exhausted. *)

From Stdlib Require Import List String Ascii Bool Arith Lia.
Import ListNotations.
Open Scope string_scope.
Open Scope list_scope.

(** ** Exceptions and results *)

Inductive exn : Type :=
| ParseError
| AttributeError
| TypeError
| KeyError (key : string)
| AssertionError (msg : string).

Inductive outcome (A : Type) : Type :=
| Return (a : A)
| Raise (e : exn).

Arguments Return {A} a.
Arguments Raise {A} e.

(** ** Python built-ins on strings *)

Module Py.

(** [x in l] for a list of strings. *)
Definition contains (l : list string) (x : string) : bool :=
  existsb (String.eqb x) l.

(** [str.isspace] on one character, for the code points below 256:
    TAB, LF, VT, FF, CR, FS, GS, RS, US, SPACE, NEL and NBSP. *)
Definition isspace (c : ascii) : bool :=
  let n := nat_of_ascii c in
  (((9 <=? n) && (n <=? 13)) || ((28 <=? n) && (n <=? 32))
   || (n =? 133) || (n =? 160))%nat.

Fixpoint lstrip (s : string) : string :=
  match s with
  | EmptyString => EmptyString
  | String c s' => if isspace c then lstrip s' else s
  end.

Fixpoint rstrip (s : string) : string :=
  match s with
  | EmptyString => EmptyString
  | String c s' =>
      match rstrip s' with
      | EmptyString => if isspace c then EmptyString else String c EmptyString
      | r => String c r
      end
  end.

(** [s.strip()] *)
Definition strip (s : string) : string := rstrip (lstrip s).

(** [s.split(",")]: the pieces between the commas, the empty ones too;
    the empty string gives one empty piece. *)
Fixpoint split_comma (s : string) : list string :=
  match s with
  | EmptyString => [EmptyString]
  | String c s' =>
      if Ascii.eqb c ","%char then EmptyString :: split_comma s'
      else match split_comma s' with
           | [] => [String c EmptyString]
           | p :: ps => String c p :: ps
           end
  end.

(** [",".join(l)] *)
Fixpoint join_comma (l : list string) : string :=
  match l with
  | [] => EmptyString
  | [p] => p
  | p :: ps => p ++ String ","%char (join_comma ps)
  end.

End Py.

(** ** The element tree handed over by the XML library *)

#[warnings="-register-all"]
Inductive Element : Type :=
| Elem (tag : string) (text : option string) (children : list Element).

Definition tag (e : Element) : string := let (t, _, _) := e in t.
Definition text (e : Element) : option string := let (_, x, _) := e in x.
Definition children (e : Element) : list Element := let (_, _, c) := e in c.

(** [e.find(name)] for a plain tag name: the first direct child with that
    tag, [None] when there is none. *)
Definition find (name : string) (e : Element) : option Element :=
  List.find (fun c => String.eqb (tag c) name) (children e).

(** [e.iter(name)]: [e] itself and all its descendants, in document order,
    restricted to the elements with that tag. *)
Fixpoint iter (name : string) (e : Element) : list Element :=
  match e with
  | Elem t _ cs =>
      (if String.eqb t name then [e] else []) ++ flat_map (iter name) cs
  end.

(** What a Python variable holding the result of [find] can be compared
    with: the value is [None], a string or an element object. *)
Inductive pyobj : Type :=
| PyNone
| PyStr (s : string)
| PyElement (e : Element).

Definition of_find (r : option Element) : pyobj :=
  match r with
  | None => PyNone
  | Some e => PyElement e
  end.

(** ["literal" == o]: a string equals only an equal string; compared with
    [None] or with an element object the result is [False]. *)
Definition str_eq (s : string) (o : pyobj) : bool :=
  match o with
  | PyStr s' => String.eqb s s'
  | PyNone | PyElement _ => false
  end.

(** Sequences of strings held by a record: a list, which can be iterated
    again and again, or a generator object, which yields each item once. *)
Inductive pyseq : Type :=
| PyList (items : list string)
| PyGen (pending : list string).

Definition pending_items (q : pyseq) : list string :=
  match q with
  | PyList l => l
  | PyGen l => l
  end.

(** One full [for x in q] loop: the items it sees and the object after. *)
Definition iterate (q : pyseq) : list string * pyseq :=
  match q with
  | PyList l => (l, PyList l)
  | PyGen l => (l, PyGen [])
  end.

(** [ssplit]: a generator over the stripped pieces of [data.split(",")]. *)
Definition ssplit (data : string) : pyseq :=
  PyGen (map Py.strip (Py.split_comma data)).


(** ** The catalog *)

Record PackageUpdate : Type := mkPackageUpdate {
  name : string;
  display_name : string;
  description : string;
  release_date : string;
  version : string;
  dependencies : option pyseq;
  auto_dependon : option pyseq;
  downloadable_archives : option pyseq;
  default : bool;
  virtual : bool
}.

Record Updates : Type := mkUpdates {
  application_name : option string;
  application_version : option string;
  package_updates : list PackageUpdate
}.

Definition _get_text (item : option Element) : string :=
  match item with
  | Some e => match text e with
              | Some t => t
              | None => ""
              end
  | None => ""
  end.

Definition _get_list (item : option Element) : option pyseq :=
  match item with
  | Some e => match text e with
              | Some t => Some (ssplit t)
              | None => None
              end
  | None => None
  end.

Definition _get_boolean (item : pyobj) : bool :=
  if str_eq "true" item then true else false.

(** The body of the loop of [fromstring], for one [PackageUpdate] element.
    The positional arguments of the constructor are kept in the order of the
    call: name, display name, description, release date, version, ... *)
Definition fromstring_entry (packageupdate : Element) : PackageUpdate :=
  let pkg_name := _get_text (find "Name" packageupdate) in
  let display_name := _get_text (find "DisplayName" packageupdate) in
  let full_version := _get_text (find "Version" packageupdate) in
  let package_desc := _get_text (find "Description" packageupdate) in
  let release_date := _get_text (find "ReleaseDate" packageupdate) in
  let dependencies := _get_list (find "Dependencies" packageupdate) in
  let auto_dependon := _get_list (find "AutoDependOn" packageupdate) in
  let archives := _get_list (find "DownloadableArchives" packageupdate) in
  let default := _get_boolean (of_find (find "Default" packageupdate)) in
  let virtual := _get_boolean (of_find (find "Virtual" packageupdate)) in
  mkPackageUpdate pkg_name display_name package_desc release_date full_version
    dependencies auto_dependon archives default virtual.

(** [fromstring] once the XML library has produced the root element:
    [x.find(...).text] raises [AttributeError] when [find] gives [None]. *)
Definition fromstring_root (update_xml : Element) : outcome Updates :=
  match find "ApplicationName" update_xml with
  | None => Raise AttributeError
  | Some an =>
      match find "ApplicationVersion" update_xml with
      | None => Raise AttributeError
      | Some av =>
          Return (mkUpdates (text an) (text av)
                    (map fromstring_entry (iter "PackageUpdate" update_xml)))
      end
  end.

Section XmlLibrary.

(** [ElementTree.fromstring] of defusedxml: the root element of a
    well-formed document, [None] for a text it rejects. *)
Variable ElementTree_fromstring : string -> option Element.

Definition fromstring (update_xml_text : string) : outcome Updates :=
  match ElementTree_fromstring update_xml_text with
  | None => Raise ParseError
  | Some update_xml => fromstring_root update_xml
  end.

End XmlLibrary.

(** ** [Updates.dfs]

    [filo] is kept with its top first: [filo.append(x)] is [x :: filo] and
    [filo.pop()] takes the head.  [packages] and [visited] are in the order
    of the Python lists. *)

(** [for depend in items: if depend not in visited: filo.append(depend)] *)
Definition push_unvisited (visited items filo : list string) : list string :=
  fold_left
    (fun st depend => if Py.contains visited depend then st else depend :: st)
    items filo.

(** [for entry in self.package_updates: ...] for one [next].  The records
    come back with the generators that were run now exhausted.  Iterating
    the [None] of a record without dependencies raises [TypeError]. *)
Fixpoint dfs_scan (next : string) (entries : list PackageUpdate)
    (filo visited : list string)
  : list PackageUpdate * outcome (list string * list string) :=
  match entries with
  | [] => ([], Return (filo, visited))
  | entry :: rest =>
      if String.eqb (name entry) next then
        let visited := visited ++ [next] in
        match dependencies entry with
        | None => (entries, Raise TypeError)
        | Some q =>
            let (items, q') := iterate q in
            let filo := push_unvisited visited items filo in
            let entry' :=
              mkPackageUpdate (name entry) (display_name entry)
                (description entry) (release_date entry) (version entry)
                (Some q') (auto_dependon entry) (downloadable_archives entry)
                (default entry) (virtual entry) in
            let (rest', r) := dfs_scan next rest filo visited in
            (entry' :: rest', r)
        end
      else
        let (rest', r) := dfs_scan next rest filo visited in
        (entry :: rest', r)
  end.

(** The [while len(filo) > 0] loop, at most [fuel] iterations of it;
    [None] when the iterations allowed are used up before it has ended. *)
Fixpoint dfs_loop (fuel : nat) (entries : list PackageUpdate)
    (filo packages visited : list string)
  : list PackageUpdate * option (outcome (list string)) :=
  match filo with
  | [] => (entries, Some (Return packages))
  | next :: filo =>
      match fuel with
      | O => (entries, None)
      | S fuel =>
          let packages := packages ++ [next] in
          match dfs_scan next entries filo visited with
          | (entries, Raise e) => (entries, Some (Raise e))
          | (entries, Return (filo, visited)) =>
              dfs_loop fuel entries filo packages visited
          end
      end
  end.

(** The number of items all the dependency sequences of the catalog can
    still yield. *)
Definition deps_count (entry : PackageUpdate) : nat :=
  match dependencies entry with
  | Some q => List.length (pending_items q)
  | None => 0
  end.

Definition total_deps (entries : list PackageUpdate) : nat :=
  list_sum (map deps_count entries).

(** [weight d k] is 1 + d + d^2 + ... + d^k. *)
Fixpoint weight (d k : nat) : nat :=
  match k with
  | O => 1
  | S k => 1 + d * weight d k
  end.

(** A number of iterations that is enough for every target. *)
Definition dfs_fuel (entries : list PackageUpdate) : nat :=
  weight (total_deps entries) (S (List.length entries)).

(** [self.dfs(target)]: the catalog afterwards and what the call gave. *)
Definition dfs (self : Updates) (target : string)
  : Updates * option (outcome (list string)) :=
  let (entries, r) :=
    dfs_loop (dfs_fuel (package_updates self)) (package_updates self)
      [target] [] [] in
  (mkUpdates (application_name self) (application_version self) entries, r).

(** The measure of the loop of [dfs]: [unvisited] counts the records whose
    name is not yet in [visited]; an identifier on the stack weighs 1 when
    no record has its name, and otherwise [weight d u] before its records
    were visited and [weight d (S u)] after, [u] being that count. *)
Definition unvisited (names visited : list string) : nat :=
  List.length (filter (fun n => negb (Py.contains visited n)) names).

Definition stack_weight (d : nat) (names visited : list string)
    (x : string) : nat :=
  if Py.contains names x then
    if Py.contains visited x then weight d (S (unvisited names visited))
    else weight d (unvisited names visited)
  else 1.

Definition potential (d : nat) (names filo visited : list string) : nat :=
  list_sum (map (stack_weight d names visited) filo).

(** ** Dictionaries *)

Section Dict.

Variable V : Type.

(** The items of a [dict] in insertion order; a well-formed one has no key
    twice. *)
Definition dict : Type := list (string * V).

Definition dict_wf (d : dict) : Prop := NoDup (map fst d).

(** [d.get(k)], [None] for a missing key. *)
Fixpoint dict_get (d : dict) (k : string) : option V :=
  match d with
  | [] => None
  | (k', v) :: d' => if String.eqb k' k then Some v else dict_get d' k
  end.

(** [k in d] *)
Definition dict_mem (d : dict) (k : string) : bool :=
  match dict_get d k with
  | Some _ => true
  | None => false
  end.

(** [d.get(k, dflt)] *)
Definition dict_get_default (d : dict) (k : string) (dflt : V) : V :=
  match dict_get d k with
  | Some v => v
  | None => dflt
  end.

(** [d[k] = v]: a key already present keeps its place. *)
Fixpoint dict_set (d : dict) (k : string) (v : V) : dict :=
  match d with
  | [] => [(k, v)]
  | (k', v') :: d' =>
      if String.eqb k' k then (k, v) :: d' else (k', v') :: dict_set d' k v
  end.

(** The items left when the key [k] is deleted. *)
Definition dict_remove (d : dict) (k : string) : dict :=
  filter (fun kv => negb (String.eqb (fst kv) k)) d.

(** [d[k]], which raises [KeyError] for a missing key. *)
Definition dict_item (d : dict) (k : string) : outcome V :=
  match dict_get d k with
  | Some v => Return v
  | None => Raise (KeyError k)
  end.

(** [d.pop(k)], which raises [KeyError] for a missing key. *)
Definition dict_pop (d : dict) (k : string) : outcome (V * dict) :=
  match dict_get d k with
  | Some v => Return (v, dict_remove d k)
  | None => Raise (KeyError k)
  end.

End Dict.

Arguments dict_wf {V} d.
Arguments dict_get {V} d k.
Arguments dict_mem {V} d k.
Arguments dict_get_default {V} d k dflt.
Arguments dict_set {V} d k v.
Arguments dict_remove {V} d k.
Arguments dict_item {V} d k.
Arguments dict_pop {V} d k.

(** ** [ModuleToPackage] *)

Record ModuleToPackage : Type := mkModuleToPackage {
  _modules_to_packages : dict (list string);
  _packages_to_modules : dict string
}.

(** [{value: key for key, list_of_values in initial_map.items()
            for value in list_of_values}] *)
Definition invert (initial_map : dict (list string)) : dict string :=
  fold_left
    (fun acc kv =>
       fold_left (fun acc value => dict_set acc value (fst kv)) (snd kv) acc)
    initial_map [].

(** [ModuleToPackage(initial_map)] *)
Definition init (initial_map : dict (list string)) : ModuleToPackage :=
  mkModuleToPackage initial_map (invert initial_map).

Definition collision_msg : string := "Detected a package name collision".

(** The [for] loop of [add] over the reverse map: it stops at the first
    name that is already a key, with the names before it inserted. *)
Fixpoint add_loop (module_name : string) (package_names : list string)
    (p2m : dict string) : dict string * outcome unit :=
  match package_names with
  | [] => (p2m, Return tt)
  | package_name :: rest =>
      if dict_mem p2m package_name
      then (p2m, Raise (AssertionError collision_msg))
      else add_loop module_name rest (dict_set p2m package_name module_name)
  end.

(** [self.add(module_name, package_names)]: the forward map is assigned
    before the loop runs, so it is changed also when the loop raises. *)
Definition add (self : ModuleToPackage) (module_name : string)
    (package_names : list string) : ModuleToPackage * outcome unit :=
  let m2p :=
    dict_set (_modules_to_packages self) module_name
      (dict_get_default (_modules_to_packages self) module_name []
         ++ package_names) in
  let (p2m, r) :=
    add_loop module_name package_names (_packages_to_modules self) in
  (mkModuleToPackage m2p p2m, r).

(** The [for] loop of [remove_module_for_package]: it stops at the first
    name that is no key (any more), with the names before it popped. *)
Fixpoint remove_loop (package_names : list string) (p2m : dict string)
  : dict string * outcome unit :=
  match package_names with
  | [] => (p2m, Return tt)
  | package_name :: rest =>
      match dict_pop p2m package_name with
      | Raise e => (p2m, Raise e)
      | Return (_, p2m') => remove_loop rest p2m'
      end
  end.

(** [self.remove_module_for_package(package_name)] *)
Definition remove_module_for_package (self : ModuleToPackage)
    (package_name : string) : ModuleToPackage * outcome unit :=
  match dict_item (_packages_to_modules self) package_name with
  | Raise e => (self, Raise e)
  | Return module_name =>
      match dict_item (_modules_to_packages self) module_name with
      | Raise e => (self, Raise e)
      | Return package_names =>
          match remove_loop package_names (_packages_to_modules self) with
          | (p2m, Raise e) =>
              (mkModuleToPackage (_modules_to_packages self) p2m, Raise e)
          | (p2m, Return _) =>
              (mkModuleToPackage
                 (dict_remove (_modules_to_packages self) module_name) p2m,
               Return tt)
          end
      end
  end.

(** [self.has_package(package_name)] *)
Definition has_package (self : ModuleToPackage) (package_name : string)
  : bool :=
  dict_mem (_packages_to_modules self) package_name.

(** [self.get_modules()] *)
Definition get_modules (self : ModuleToPackage) : list string :=
  map fst (_modules_to_packages self).

(** The reverse map is the exact inverse of the forward map. *)
Definition exact_inverse (self : ModuleToPackage) : Prop :=
  forall package_name module_name,
    dict_get (_packages_to_modules self) package_name = Some module_name <->
    exists package_names,
      dict_get (_modules_to_packages self) module_name = Some package_names
      /\ In package_name package_names.

(** No identifier is in the candidate lists of two modules. *)
Definition no_collision (m2p : dict (list string)) : Prop :=
  forall m1 l1 m2 l2 p,
    In (m1, l1) m2p -> In (m2, l2) m2p -> In p l1 -> In p l2 -> m1 = m2.

(** ** What the specification says of the list fields

    The words of the specification for a list field: the text split on
    commas, each piece with its surrounding whitespace trimmed. *)

Definition all_space (s : string) : bool :=
  forallb Py.isspace (list_ascii_of_string s).

Definition has_comma (s : string) : bool :=
  existsb (Ascii.eqb ","%char) (list_ascii_of_string s).

Definition starts_with_space (s : string) : bool :=
  match s with
  | EmptyString => false
  | String c _ => Py.isspace c
  end.

Fixpoint ends_with_space (s : string) : bool :=
  match s with
  | EmptyString => false
  | String c EmptyString => Py.isspace c
  | String _ s' => ends_with_space s'
  end.

Fixpoint count_commas (s : string) : nat :=
  match s with
  | EmptyString => 0
  | String c s' => (if Ascii.eqb c ","%char then 1 else 0) + count_commas s'
  end.

(** [raws] are the pieces of [s] between its commas. *)
Definition comma_pieces (s : string) (raws : list string) : Prop :=
  raws <> []
  /\ Forall (fun raw => has_comma raw = false) raws
  /\ Py.join_comma raws = s.

(** [piece] is [raw] without the whitespace around it. *)
Definition trimmed (raw piece : string) : Prop :=
  starts_with_space piece = false
  /\ ends_with_space piece = false
  /\ exists l r,
      raw = (l ++ piece ++ r)%string
      /\ all_space l = true /\ all_space r = true.

(** ** The other methods of [Updates] *)

(** [s.endswith(suffix)]: [s] itself or one of its tails is [suffix]. *)
Fixpoint endswith (s suffix : string) : bool :=
  String.eqb s suffix
  || match s with
     | EmptyString => false
     | String _ s' => endswith s' suffix
     end.

(** [self.extend(other)]: the records of [other] are appended to the list
    of [self]; the two application fields of [self] stay. *)
Definition extend (self other : Updates) : Updates :=
  mkUpdates (application_name self) (application_version self)
    (package_updates self ++ package_updates other).

(** [self.get()] *)
Definition get (self : Updates) : list PackageUpdate := package_updates self.

(** [self.get_from_arch(arch)]: the loop appends to [result]. *)
Definition get_from_arch (self : Updates) (arch : string)
  : list PackageUpdate :=
  fold_left
    (fun result update =>
       if endswith (name update) arch then result ++ [update] else result)
    (package_updates self) [].

(** [len(self)] of a [ModuleToPackage] *)
Definition len (self : ModuleToPackage) : nat :=
  List.length (_modules_to_packages self).

(** The state the index is meant to be in: no module twice in the
    forward map, the reverse map its exact inverse, and no identifier
    twice in a candidate list. *)
Definition index_ok (self : ModuleToPackage) : Prop :=
  dict_wf (_modules_to_packages self)
  /\ exact_inverse self
  /\ forall module_name package_names,
      dict_get (_modules_to_packages self) module_name = Some package_names ->
      NoDup package_names.

(** ** The dependency relation of a catalog *)

(** The items the dependencies of a record can still yield. *)
Definition dependency_items (entry : PackageUpdate) : list string :=
  match dependencies entry with
  | Some q => pending_items q
  | None => []
  end.

(** [reachable entries target x]: [x] is [target], or an item of the
    dependencies of a record named after a reachable identifier. *)
Inductive reachable (entries : list PackageUpdate) (target : string)
  : string -> Prop :=
| reachable_target : reachable entries target target
| reachable_step (x : string) (entry : PackageUpdate) (d : string) :
    reachable entries target x ->
    In entry entries -> name entry = x ->
    In d (dependency_items entry) ->
    reachable entries target d.

(** What the loop of [dfs] keeps true, [entries0] being the records at the
    call: the records keep their names and yield no new items, and the
    untouched ones yield what they did; what is visited was popped; what
    was popped or is stacked is reachable; the items of a popped name are
    popped or stacked; and so is the target. *)
Definition dfs_invariant (entries0 : list PackageUpdate) (target : string)
    (entries : list PackageUpdate) (filo packages visited : list string)
  : Prop :=
  Forall2
    (fun e0 e =>
       name e = name e0
       /\ incl (dependency_items e) (dependency_items e0)
       /\ (~ In (name e0) packages ->
           dependency_items e = dependency_items e0))
    entries0 entries
  /\ (forall x, Py.contains visited x = true -> In x packages)
  /\ (forall x, In x packages \/ In x filo -> reachable entries0 target x)
  /\ (forall e0 d,
        In e0 entries0 -> In (name e0) packages ->
        In d (dependency_items e0) -> In d packages \/ In d filo)
  /\ (In target packages \/ In target filo).

(** The dependencies as [fromstring] stores them: [None] or a generator. *)
Definition as_parsed (entry : PackageUpdate) : Prop :=
  dependencies entry = None \/ exists l, dependencies entry = Some (PyGen l).

(** What the loop of [dfs] keeps true of the records without
    dependencies: a record has none exactly when it had none at the call,
    and no record named after a popped identifier has none. *)
Definition dfs_none_invariant (entries0 entries : list PackageUpdate)
    (packages : list string) : Prop :=
  Forall2
    (fun e0 e =>
       name e = name e0
       /\ (dependencies e = None <-> dependencies e0 = None))
    entries0 entries
  /\ forall e0,
      In e0 entries0 -> In (name e0) packages -> dependencies e0 <> None.

(** ** Elements within a document *)

(** [inside e root]: [e] is [root] or one of its descendants. *)
Inductive inside : Element -> Element -> Prop :=
| inside_self (e : Element) : inside e e
| inside_child (e c root : Element) :
    In c (children root) -> inside e c -> inside e root.

(** Induction on an element with the property known of its children. *)
Fixpoint Element_children_ind (P : Element -> Prop)
    (step : forall t x cs, Forall P cs -> P (Elem t x cs)) (e : Element)
  : P e :=
  match e with
  | Elem t x cs =>
      step t x cs
        ((fix all (l : list Element) : Forall P l :=
            match l with
            | [] => Forall_nil P
            | c :: l' =>
                Forall_cons c (Element_children_ind P step c) (all l')
            end) cs)
  end.

(** ** Sample documents and catalogs *)

Definition leaf (t x : string) : Element := Elem t (Some x) [].

(** A package whose [Default] and [Virtual] elements both hold [true]. *)
Definition flagged_package : Element :=
  Elem "PackageUpdate" None
    [leaf "Name" "qt.tools.ninja"; leaf "Default" "true";
     leaf "Virtual" "true"].

Definition flagged_document : Element :=
  Elem "Updates" None
    [leaf "ApplicationName" "{AnyApplication}";
     leaf "ApplicationVersion" "1.0.0";
     flagged_package].

(** A document that has no [ApplicationVersion]. *)
Definition headless_document : Element :=
  Elem "Updates" None
    [leaf "ApplicationName" "{AnyApplication}"; flagged_package].

Definition charts_id : string := "qt.qt6.620.qtcharts.arch".

(** The index after [add("qtcharts", [charts_id])] on an empty one. *)
Definition charts_index : ModuleToPackage :=
  mkModuleToPackage [("qtcharts", [charts_id])] [(charts_id, "qtcharts")].

(** Two modules that list the same identifier. *)
Definition colliding_map : dict (list string) :=
  [("qtcharts", ["qt.charts"]); ("qtsvg", ["qt.charts"])].

(** One module that lists an identifier twice. *)
Definition repeated_map : dict (list string) :=
  [("qtcharts", ["qt.charts"; "qt.charts"; "qt.charts.arch"])].

(** A record that has only a name and its dependencies. *)
Definition package (n : string) (deps : option pyseq) : PackageUpdate :=
  mkPackageUpdate n "" "" "" "" deps None None false false.

(** [qt.charts] depends on [qt.base] and [qt.tools]; the package
    [qt.base] has no [Dependencies] element and [qt.tools] no record. *)
Definition chain_document : Element :=
  Elem "Updates" None
    [leaf "ApplicationName" "{AnyApplication}";
     leaf "ApplicationVersion" "1.0.0";
     Elem "PackageUpdate" None
       [leaf "Name" "qt.charts"; leaf "Dependencies" "qt.base, qt.tools"];
     Elem "PackageUpdate" None [leaf "Name" "qt.base"]].

(** What [fromstring] makes of [chain_document]. *)
Definition chain_catalog : Updates :=
  mkUpdates (Some "{AnyApplication}") (Some "1.0.0")
    [package "qt.charts" (Some (PyGen ["qt.base"; "qt.tools"]));
     package "qt.base" None].

(** A cycle between [a] and [b], two records named [b], lists and a
    generator, and [c] listed by several records. *)
Definition cyclic_catalog : Updates :=
  mkUpdates (Some "{AnyApplication}") (Some "1.0.0")
    [package "a" (Some (PyList ["b"; "c"]));
     package "b" (Some (PyList ["a"; "c"]));
     package "b" (Some (PyGen ["x"; "b"]))].

(** [PackageUpdate] elements at three depths: a child of the root, one
    inside a group and one inside the first; the last has no name. *)
Definition inner_package : Element :=
  Elem "PackageUpdate" None [leaf "Version" "2.0"].

Definition nested_document : Element :=
  Elem "Updates" None
    [leaf "ApplicationName" "{AnyApplication}";
     leaf "ApplicationVersion" "1.0.0";
     Elem "PackageUpdate" None [leaf "Name" "qt.outer"; inner_package];
     Elem "Group" None
       [Elem "PackageUpdate" None [leaf "Name" "qt.grouped"]]].

(** Two modules with candidate lists that share nothing. *)
Definition disjoint_map : dict (list string) :=
  [("qtcharts", ["qt.charts"; "qt.charts.arch"]); ("qtsvg", ["qt.svg"])].

(** A catalog as [fromstring] makes it, every package with a
    [Dependencies] element. *)
Definition tools_catalog : Updates :=
  mkUpdates (Some "{AnyApplication}") (Some "1.0.0")
    [package "qt.charts" (Some (PyGen ["qt.base"; "qt.tools"]));
     package "qt.base" (Some (PyGen ["qt.tools"]))].

(** The document [tools_catalog] is parsed from. *)
Definition tools_document : Element :=
  Elem "Updates" None
    [leaf "ApplicationName" "{AnyApplication}";
     leaf "ApplicationVersion" "1.0.0";
     Elem "PackageUpdate" None
       [leaf "Name" "qt.charts"; leaf "Dependencies" "qt.base, qt.tools"];
     Elem "PackageUpdate" None
       [leaf "Name" "qt.base"; leaf "Dependencies" "qt.tools"]].

(* ================================================================== *)
(** * Properties *)

(** ** Decoding of [Default] and [Virtual] *)

Lemma _get_boolean_of_find (r : option Element) :
  _get_boolean (of_find r) = false.
Proof. destruct r; reflexivity. Qed.

Lemma _get_boolean_true_string : _get_boolean (PyStr "true") = true.
Proof. reflexivity. Qed.

Lemma fromstring_entry_flags (packageupdate : Element) :
  default (fromstring_entry packageupdate) = false
  /\ virtual (fromstring_entry packageupdate) = false.
Proof.
  unfold fromstring_entry; cbn [default virtual].
  now rewrite !_get_boolean_of_find.
Qed.

(** C1: [fromstring] hands the element found, not its text, to
    [_get_boolean], and a string never equals an element: a package whose
    [Default] and [Virtual] elements both have the text [true] is parsed
    with both fields false. *)
Theorem flags_with_true_text_decode_false :
  option_map text (find "Default" flagged_package) = Some (Some "true")
  /\ option_map text (find "Virtual" flagged_package) = Some (Some "true")
  /\ exists u p,
      fromstring_root flagged_document = Return u
      /\ package_updates u = [p]
      /\ name p = "qt.tools.ninja"
      /\ default p = false
      /\ virtual p = false.
Proof.
  repeat split.
  eexists; eexists; repeat split.
Qed.

(** ** The required top-level elements *)

Lemma fromstring_root_missing (update_xml : Element) :
  find "ApplicationName" update_xml = None
  \/ find "ApplicationVersion" update_xml = None ->
  fromstring_root update_xml = Raise AttributeError.
Proof.
  unfold fromstring_root; intros [H | H]; rewrite H; [reflexivity |].
  now destruct (find "ApplicationName" update_xml).
Qed.

Lemma fromstring_root_present (update_xml an av : Element) :
  find "ApplicationName" update_xml = Some an ->
  find "ApplicationVersion" update_xml = Some av ->
  fromstring_root update_xml =
    Return (mkUpdates (text an) (text av)
              (map fromstring_entry (iter "PackageUpdate" update_xml))).
Proof. unfold fromstring_root; now intros -> ->. Qed.

(** C5: for a text the XML library accepts, [fromstring] raises when
    [ApplicationName] or [ApplicationVersion] is not a child of the root,
    and otherwise returns a catalog whose [application_name] and
    [application_version] are the texts of these two elements. *)
Theorem fromstring_application_fields
    (ElementTree_fromstring : string -> option Element)
    (update_xml_text : string) (update_xml : Element) :
  ElementTree_fromstring update_xml_text = Some update_xml ->
  (find "ApplicationName" update_xml = None
   \/ find "ApplicationVersion" update_xml = None ->
   fromstring ElementTree_fromstring update_xml_text = Raise AttributeError)
  /\ (forall an av,
        find "ApplicationName" update_xml = Some an ->
        find "ApplicationVersion" update_xml = Some av ->
        exists u,
          fromstring ElementTree_fromstring update_xml_text = Return u
          /\ application_name u = text an
          /\ application_version u = text av).
Proof.
  intros Hparse; unfold fromstring; rewrite Hparse; split.
  - apply fromstring_root_missing.
  - intros an av Han Hav.
    rewrite (fromstring_root_present _ _ _ Han Hav).
    eexists; repeat split.
Qed.

Lemma fromstring_application_fields_witness :
  fromstring (fun _ => Some headless_document) "<Updates/>"
    = Raise AttributeError
  /\ exists u,
      fromstring (fun _ => Some flagged_document) "<Updates/>" = Return u
      /\ application_name u = Some "{AnyApplication}"
      /\ application_version u = Some "1.0.0".
Proof.
  split.
  - apply (proj1 (fromstring_application_fields
                    (fun _ => Some headless_document) "<Updates/>"
                    headless_document eq_refl)).
    right; reflexivity.
  - apply (proj2 (fromstring_application_fields
                    (fun _ => Some flagged_document) "<Updates/>"
                    flagged_document eq_refl)
             (leaf "ApplicationName" "{AnyApplication}")
             (leaf "ApplicationVersion" "1.0.0"));
      reflexivity.
Defined.

(** ** The list fields *)

Lemma split_comma_not_nil (s : string) : Py.split_comma s <> [].
Proof.
  destruct s as [| c s]; cbn; [discriminate |].
  destruct (Ascii.eqb c ","); [discriminate |].
  destruct (Py.split_comma s); discriminate.
Qed.

Lemma join_split_comma (s : string) : Py.join_comma (Py.split_comma s) = s.
Proof.
  induction s as [| c s IH]; [reflexivity |].
  cbn [Py.split_comma].
  destruct (Ascii.eqb_spec c ",") as [-> | Hc].
  - pose proof (split_comma_not_nil s) as Hne.
    destruct (Py.split_comma s) as [| p ps]; [contradiction |].
    cbn [Py.join_comma] in *. now rewrite IH.
  - pose proof (split_comma_not_nil s) as Hne.
    destruct (Py.split_comma s) as [| p ps]; [contradiction |].
    destruct ps as [| p' ps]; cbn [Py.join_comma] in *.
    + now rewrite IH.
    + cbn [append]. now rewrite IH.
Qed.

Lemma split_comma_no_comma (s : string) :
  Forall (fun raw => has_comma raw = false) (Py.split_comma s).
Proof.
  induction s as [| c s IH]; cbn [Py.split_comma].
  - constructor; [reflexivity | constructor].
  - destruct (Ascii.eqb_spec c ",") as [-> | Hc].
    + constructor; [reflexivity | exact IH].
    + pose proof (split_comma_not_nil s) as Hne.
      destruct (Py.split_comma s) as [| p ps]; [contradiction |].
      inversion IH as [| ? ? Hp Hps]; subst.
      constructor; [| exact Hps].
      unfold has_comma in *; cbn [list_ascii_of_string existsb].
      rewrite Hp, orb_false_r.
      apply Ascii.eqb_neq; congruence.
Qed.

Lemma split_comma_pieces (s : string) : comma_pieces s (Py.split_comma s).
Proof.
  repeat split.
  - apply split_comma_not_nil.
  - apply split_comma_no_comma.
  - apply join_split_comma.
Qed.

Lemma split_comma_length (s : string) :
  List.length (Py.split_comma s) = S (count_commas s).
Proof.
  induction s as [| c s IH]; [reflexivity |].
  cbn [Py.split_comma count_commas].
  destruct (Ascii.eqb c ","); cbn [List.length]; [now rewrite IH |].
  pose proof (split_comma_not_nil s) as Hne.
  destruct (Py.split_comma s) as [| p ps]; [contradiction |].
  exact IH.
Qed.

Lemma has_comma_cons (c : ascii) (s : string) :
  has_comma (String c s) = false ->
  Ascii.eqb c "," = false /\ has_comma s = false.
Proof.
  unfold has_comma; cbn [list_ascii_of_string existsb].
  intros H; apply orb_false_elim in H as [Hc Hs]; split; [| exact Hs].
  now rewrite Ascii.eqb_sym.
Qed.

Lemma split_comma_plain (p : string) :
  has_comma p = false -> Py.split_comma p = [p].
Proof.
  induction p as [| c p IH]; [reflexivity |].
  intros H; apply has_comma_cons in H as [Hc Hp].
  cbn [Py.split_comma]; now rewrite Hc, (IH Hp).
Qed.

Lemma split_comma_app (p t : string) :
  has_comma p = false ->
  Py.split_comma (p ++ String "," t)%string = p :: Py.split_comma t.
Proof.
  induction p as [| c p IH]; [reflexivity |].
  intros H; apply has_comma_cons in H as [Hc Hp].
  cbn [append Py.split_comma]; now rewrite Hc, (IH Hp).
Qed.

(** The pieces between the commas are determined by the text: splitting
    is the inverse of joining. *)
Lemma split_join_comma (raws : list string) :
  raws <> [] ->
  Forall (fun raw => has_comma raw = false) raws ->
  Py.split_comma (Py.join_comma raws) = raws.
Proof.
  induction raws as [| p ps IH]; [congruence |].
  intros _ Hall; inversion Hall as [| ? ? Hp Hps]; subst.
  destruct ps as [| p' ps].
  - now apply split_comma_plain.
  - cbn [Py.join_comma]; rewrite (split_comma_app _ _ Hp).
    f_equal; apply IH; [discriminate | exact Hps].
Qed.

Lemma comma_pieces_unique (s : string) (raws : list string) :
  comma_pieces s raws -> raws = Py.split_comma s.
Proof.
  intros (Hne & Hall & <-); symmetry; now apply split_join_comma.
Qed.

Lemma all_space_cons (c : ascii) (s : string) :
  all_space (String c s) = Py.isspace c && all_space s.
Proof. reflexivity. Qed.

Lemma lstrip_decompose (s : string) :
  exists l, s = (l ++ Py.lstrip s)%string /\ all_space l = true.
Proof.
  induction s as [| c s (l & Hs & Hl)].
  - now exists EmptyString.
  - cbn [Py.lstrip]; destruct (Py.isspace c) eqn:Hc.
    + exists (String c l); cbn [append]; rewrite <- Hs.
      now rewrite all_space_cons, Hc, Hl.
    + now exists EmptyString.
Qed.

Lemma lstrip_start (s : string) : starts_with_space (Py.lstrip s) = false.
Proof.
  induction s as [| c s IH]; [reflexivity |].
  cbn [Py.lstrip]; destruct (Py.isspace c) eqn:Hc; [exact IH | exact Hc].
Qed.

Lemma rstrip_decompose (s : string) :
  exists r, s = (Py.rstrip s ++ r)%string /\ all_space r = true.
Proof.
  induction s as [| c s (r & Hs & Hr)].
  - now exists EmptyString.
  - cbn [Py.rstrip]; destruct (Py.rstrip s) as [| c' t] eqn:Ht.
    + cbn [append] in Hs; subst r.
      destruct (Py.isspace c) eqn:Hc.
      * exists (String c s); split; [reflexivity |].
        now rewrite all_space_cons, Hc, Hr.
      * now exists s.
    + exists r; cbn [append] in *; now rewrite <- Hs.
Qed.

Lemma rstrip_end (s : string) : ends_with_space (Py.rstrip s) = false.
Proof.
  induction s as [| c s IH]; [reflexivity |].
  cbn [Py.rstrip]; destruct (Py.rstrip s) as [| c' t] eqn:Ht.
  - destruct (Py.isspace c) eqn:Hc; [reflexivity | exact Hc].
  - exact IH.
Qed.

Lemma rstrip_start (s : string) :
  starts_with_space s = false -> starts_with_space (Py.rstrip s) = false.
Proof.
  destruct s as [| c s]; [reflexivity |].
  cbn [starts_with_space Py.rstrip]; intros Hc.
  destruct (Py.rstrip s); [now rewrite Hc | exact Hc].
Qed.

Lemma strip_trimmed (raw : string) : trimmed raw (Py.strip raw).
Proof.
  unfold trimmed, Py.strip; repeat split.
  - apply rstrip_start, lstrip_start.
  - apply rstrip_end.
  - destruct (lstrip_decompose raw) as (l & Hl & Hls).
    destruct (rstrip_decompose (Py.lstrip raw)) as (r & Hr & Hrs).
    exists l, r; repeat split; try assumption.
    now rewrite <- Hr.
Qed.

Lemma _get_list_absent (item : option Element) :
  item = None \/ (exists e, item = Some e /\ text e = None) ->
  _get_list item = None.
Proof.
  intros [-> | (e & -> & He)]; [reflexivity |].
  unfold _get_list; now rewrite He.
Qed.

Lemma _get_list_text (e : Element) (s : string) :
  text e = Some s ->
  exists raws pieces,
    _get_list (Some e) = Some (PyGen pieces)
    /\ comma_pieces s raws
    /\ Forall2 trimmed raws pieces.
Proof.
  intros He; unfold _get_list; rewrite He.
  exists (Py.split_comma s), (map Py.strip (Py.split_comma s)).
  repeat split; try apply split_comma_pieces.
  induction (Py.split_comma s); constructor; auto using strip_trimmed.
Qed.

(** C6: each of [dependencies], [auto_dependon] and
    [downloadable_archives] of a parsed package is [None], and no empty
    sequence, when the child element is missing or has no text; for a text
    it yields the pieces of the text between its commas, in their order and
    the empty ones too, each with the whitespace around it removed. *)
Theorem list_fields_absent_or_split
    (packageupdate : Element) (child : string)
    (field : PackageUpdate -> option pyseq) :
  In (child, field)
     [("Dependencies", dependencies); ("AutoDependOn", auto_dependon);
      ("DownloadableArchives", downloadable_archives)] ->
  (find child packageupdate = None
   \/ (exists e, find child packageupdate = Some e /\ text e = None) ->
   field (fromstring_entry packageupdate) = None)
  /\ (forall e s,
        find child packageupdate = Some e -> text e = Some s ->
        exists raws pieces,
          field (fromstring_entry packageupdate) = Some (PyGen pieces)
          /\ comma_pieces s raws
          /\ List.length raws = S (count_commas s)
          /\ Forall2 trimmed raws pieces)
  /\ ssplit "a, b ,c" = PyGen ["a"; "b"; "c"]
  /\ ssplit "a,,b" = PyGen ["a"; ""; "b"].
Proof.
  intros Hin.
  assert (Hfield : field (fromstring_entry packageupdate)
                   = _get_list (find child packageupdate)).
  { cbn [In] in Hin.
    destruct Hin as [H | [H | [H | []]]]; injection H as <- <-;
      reflexivity. }
  rewrite Hfield; repeat split.
  - apply _get_list_absent.
  - intros e s -> He.
    destruct (_get_list_text e s He) as (raws & pieces & Hg & Hp & Ht).
    exists raws, pieces; repeat split; try assumption; try apply Hp.
    rewrite (comma_pieces_unique _ _ Hp); apply split_comma_length.
Qed.

Lemma list_fields_absent_or_split_witness :
  dependencies (fromstring_entry flagged_package) = None
  /\ exists raws pieces,
      auto_dependon
        (fromstring_entry
           (Elem "PackageUpdate" None [leaf "AutoDependOn" "a, b ,c"]))
      = Some (PyGen pieces)
      /\ comma_pieces "a, b ,c" raws
      /\ List.length raws = S (count_commas "a, b ,c")
      /\ Forall2 trimmed raws pieces.
Proof.
  split.
  - apply (proj1 (list_fields_absent_or_split flagged_package
                    "Dependencies" dependencies (or_introl eq_refl))).
    left; reflexivity.
  - apply (proj1 (proj2 (list_fields_absent_or_split
                    (Elem "PackageUpdate" None [leaf "AutoDependOn" "a, b ,c"])
                    "AutoDependOn" auto_dependon
                    (or_intror (or_introl eq_refl))))
             (leaf "AutoDependOn" "a, b ,c") "a, b ,c");
      reflexivity.
Defined.

(** ** Dictionaries *)

Section DictFacts.

Context {V : Type}.
Implicit Types (d : dict V) (k : string) (v : V).

Lemma dict_get_set d k v k' :
  dict_get (dict_set d k v) k' =
    if String.eqb k k' then Some v else dict_get d k'.
Proof.
  induction d as [| [k0 v0] d IH]; cbn [dict_set dict_get].
  - reflexivity.
  - destruct (String.eqb_spec k0 k) as [-> | Hk0]; cbn [dict_get].
    + now destruct (String.eqb k k').
    + rewrite IH.
      destruct (String.eqb_spec k0 k') as [-> | Hk']; [| reflexivity].
      destruct (String.eqb_spec k k'); [congruence | reflexivity].
Qed.

Lemma dict_get_remove d k k' :
  dict_get (dict_remove d k) k' =
    if String.eqb k k' then None else dict_get d k'.
Proof.
  induction d as [| [k0 v0] d IH]; cbn [dict_remove filter dict_get fst].
  - now destruct (String.eqb k k').
  - fold (dict_remove d k).
    destruct (String.eqb_spec k0 k) as [-> | Hk0]; cbn [negb dict_get].
    + rewrite IH; now destruct (String.eqb k k').
    + rewrite IH.
      destruct (String.eqb_spec k0 k') as [-> | Hk']; [| reflexivity].
      destruct (String.eqb_spec k k'); [congruence | reflexivity].
Qed.

Lemma dict_mem_set d k v k' :
  dict_mem (dict_set d k v) k' = String.eqb k k' || dict_mem d k'.
Proof.
  unfold dict_mem; rewrite dict_get_set; now destruct (String.eqb k k').
Qed.

Lemma dict_mem_remove d k k' :
  dict_mem (dict_remove d k) k' = negb (String.eqb k k') && dict_mem d k'.
Proof.
  unfold dict_mem; rewrite dict_get_remove; now destruct (String.eqb k k').
Qed.

Lemma dict_get_in d k v : dict_get d k = Some v -> In (k, v) d.
Proof.
  induction d as [| [k0 v0] d IH]; cbn [dict_get]; [discriminate |].
  destruct (String.eqb_spec k0 k) as [-> | Hk0].
  - intros [= ->]; now left.
  - intros H; right; auto.
Qed.

Lemma dict_in_get d k v : dict_wf d -> In (k, v) d -> dict_get d k = Some v.
Proof.
  unfold dict_wf.
  induction d as [| [k0 v0] d IH]; cbn [map fst dict_get In]; [tauto |].
  intros Hwf [[= -> ->] | Hin]; inversion Hwf as [| ? ? Hk0 Hd]; subst.
  - now rewrite String.eqb_refl.
  - destruct (String.eqb_spec k0 k) as [-> | _]; [| auto].
    exfalso; apply Hk0; apply (in_map fst) in Hin; exact Hin.
Qed.

End DictFacts.

Lemma contains_In (l : list string) (x : string) :
  Py.contains l x = true <-> In x l.
Proof.
  unfold Py.contains; rewrite existsb_exists; split.
  - intros (y & Hy & Hxy); apply String.eqb_eq in Hxy; now subst.
  - intros H; exists x; split; [exact H | apply String.eqb_refl].
Qed.

Lemma contains_cons (l : list string) (y x : string) :
  Py.contains (y :: l) x = String.eqb y x || Py.contains l x.
Proof. unfold Py.contains; cbn [existsb]; now rewrite String.eqb_sym. Qed.

(** ** [ModuleToPackage.add] *)

Lemma add_loop_return (module_name : string) (package_names : list string) :
  forall p2m p2m' u,
    add_loop module_name package_names p2m = (p2m', Return u) ->
    forall q,
      dict_get p2m' q =
        if Py.contains package_names q then Some module_name
        else dict_get p2m q.
Proof.
  induction package_names as [| p rest IH]; cbn [add_loop]; intros p2m p2m' u.
  - intros [= <- _] q; reflexivity.
  - destruct (dict_mem p2m p) eqn:Hp; [discriminate |].
    intros H q; rewrite (IH _ _ _ H q), contains_cons, dict_get_set.
    destruct (Py.contains rest q), (String.eqb p q); reflexivity.
Qed.

Lemma add_loop_collision (module_name : string) (package_names : list string) :
  forall p2m p,
    In p package_names -> dict_mem p2m p = true ->
    snd (add_loop module_name package_names p2m)
      = Raise (AssertionError collision_msg).
Proof.
  induction package_names as [| p0 rest IH]; cbn [add_loop In]; [tauto |].
  intros p2m p Hin Hmem.
  destruct (dict_mem p2m p0) eqn:Hp0; [reflexivity |].
  destruct Hin as [-> | Hin]; [congruence |].
  apply (IH _ p Hin); rewrite dict_mem_set, Hmem; apply orb_true_r.
Qed.

Lemma add_snd (self : ModuleToPackage) (module_name : string)
    (package_names : list string) :
  snd (add self module_name package_names)
    = snd (add_loop module_name package_names (_packages_to_modules self)).
Proof. unfold add; now destruct add_loop. Qed.

Lemma add_collision (self : ModuleToPackage) (module_name : string)
    (package_names : list string) (p : string) :
  In p package_names -> has_package self p = true ->
  snd (add self module_name package_names)
    = Raise (AssertionError collision_msg).
Proof. rewrite add_snd; apply add_loop_collision. Qed.

Lemma add_return (self self' : ModuleToPackage) (module_name : string)
    (package_names : list string) (u : unit) :
  add self module_name package_names = (self', Return u) ->
  _modules_to_packages self' =
    dict_set (_modules_to_packages self) module_name
      (dict_get_default (_modules_to_packages self) module_name []
         ++ package_names)
  /\ forall q,
      dict_get (_packages_to_modules self') q =
        if Py.contains package_names q then Some module_name
        else dict_get (_packages_to_modules self) q.
Proof.
  unfold add.
  destruct (add_loop module_name package_names (_packages_to_modules self))
    as [p2m r] eqn:Hloop.
  intros [= <- ->]; split; [reflexivity |].
  exact (add_loop_return _ _ _ _ _ Hloop).
Qed.

(** C10: [add] raises the collision assertion as soon as one candidate is
    a key of the reverse map, whatever module [owner] it is mapped to, the
    module being added to as well. *)
Theorem add_rejects_present_candidate (self : ModuleToPackage)
    (module_name : string) (package_names : list string)
    (p owner : string) :
  In p package_names ->
  dict_get (_packages_to_modules self) p = Some owner ->
  snd (add self module_name package_names)
    = Raise (AssertionError collision_msg).
Proof.
  intros Hin Hget; apply (add_collision _ _ _ p Hin).
  unfold has_package, dict_mem; now rewrite Hget.
Qed.

Lemma add_rejects_present_candidate_witness :
  snd (add charts_index "qtcharts" [charts_id])
    = Raise (AssertionError collision_msg).
Proof.
  apply (add_rejects_present_candidate charts_index "qtcharts" [charts_id]
           charts_id "qtcharts").
  - left; reflexivity.
  - reflexivity.
Defined.

(** ** [ModuleToPackage.remove_module_for_package] *)

Lemma remove_loop_return (package_names : list string) :
  forall p2m p2m' u,
    remove_loop package_names p2m = (p2m', Return u) ->
    forall q,
      dict_get p2m' q =
        if Py.contains package_names q then None else dict_get p2m q.
Proof.
  induction package_names as [| p rest IH]; cbn [remove_loop];
    intros p2m p2m' u.
  - intros [= <- _] q; reflexivity.
  - unfold dict_pop; destruct (dict_get p2m p); [| discriminate].
    intros H q; rewrite (IH _ _ _ H q), contains_cons, dict_get_remove.
    destruct (Py.contains rest q), (String.eqb p q); reflexivity.
Qed.

Lemma remove_loop_succeeds (package_names : list string) :
  NoDup package_names ->
  forall p2m,
    (forall q, In q package_names -> dict_mem p2m q = true) ->
    exists p2m', remove_loop package_names p2m = (p2m', Return tt).
Proof.
  induction 1 as [| p rest Hp Hnd IH]; cbn [remove_loop]; intros p2m Hall.
  - now exists p2m.
  - pose proof (Hall p (or_introl eq_refl)) as Hmem.
    unfold dict_pop; unfold dict_mem in Hmem.
    destruct (dict_get p2m p); [| discriminate].
    apply IH; intros q Hq; rewrite dict_mem_remove.
    rewrite (Hall q (or_intror Hq)), andb_true_r.
    destruct (String.eqb_spec p q); [congruence | reflexivity].
Qed.

Lemma remove_loop_raise (package_names : list string) :
  forall p2m p2m' e,
    remove_loop package_names p2m = (p2m', Raise e) ->
    exists key, e = KeyError key.
Proof.
  induction package_names as [| p rest IH]; cbn [remove_loop];
    intros p2m p2m' e; [discriminate |].
  unfold dict_pop; destruct (dict_get p2m p).
  - apply IH.
  - intros [= _ <-]; now exists p.
Qed.

Lemma remove_return (self self' : ModuleToPackage) (package_name : string)
    (u : unit) :
  remove_module_for_package self package_name = (self', Return u) ->
  exists module_name package_names,
    dict_get (_packages_to_modules self) package_name = Some module_name
    /\ dict_get (_modules_to_packages self) module_name = Some package_names
    /\ _modules_to_packages self'
       = dict_remove (_modules_to_packages self) module_name
    /\ forall q,
        dict_get (_packages_to_modules self') q =
          if Py.contains package_names q then None
          else dict_get (_packages_to_modules self) q.
Proof.
  unfold remove_module_for_package, dict_item.
  destruct (dict_get (_packages_to_modules self) package_name)
    as [module_name |]; [| discriminate].
  destruct (dict_get (_modules_to_packages self) module_name)
    as [package_names |] eqn:Hm; [| discriminate].
  destruct (remove_loop package_names (_packages_to_modules self))
    as [p2m [u' | e]] eqn:Hloop; [| discriminate].
  intros [= <-]; exists module_name, package_names.
  split; [reflexivity | split; [exact Hm | split; [reflexivity |]]].
  exact (remove_loop_return _ _ _ _ Hloop).
Qed.

(** C9, as the code has it: [remove_module_for_package] raises [KeyError]
    for an identifier that is no key of the reverse map; for one that is,
    when the owning module has an entry in the forward map whose candidate
    list repeats no identifier and holds only keys of the reverse map, it
    returns with exactly these candidates gone from the reverse map and
    exactly this module gone from the forward map. *)
Theorem remove_module_for_package_spec (self : ModuleToPackage)
    (package_name : string) :
  (has_package self package_name = false ->
   remove_module_for_package self package_name
     = (self, Raise (KeyError package_name)))
  /\ (forall module_name package_names,
        dict_get (_packages_to_modules self) package_name = Some module_name ->
        dict_get (_modules_to_packages self) module_name = Some package_names ->
        NoDup package_names ->
        (forall q, In q package_names -> has_package self q = true) ->
        exists self',
          remove_module_for_package self package_name = (self', Return tt)
          /\ (forall q,
                has_package self' q = true <->
                has_package self q = true /\ ~ In q package_names)
          /\ (forall m,
                dict_get (_modules_to_packages self') m =
                  if String.eqb module_name m then None
                  else dict_get (_modules_to_packages self) m)).
Proof.
  split.
  - unfold has_package, dict_mem, remove_module_for_package, dict_item.
    now destruct (dict_get (_packages_to_modules self) package_name).
  - intros module_name package_names Hp Hm Hnd Hall.
    destruct (remove_loop_succeeds _ Hnd _ Hall) as [p2m Hloop].
    exists (mkModuleToPackage
              (dict_remove (_modules_to_packages self) module_name) p2m).
    split; [| split].
    + unfold remove_module_for_package, dict_item.
      now rewrite Hp, Hm, Hloop.
    + intros q; unfold has_package, dict_mem; cbn [_packages_to_modules].
      rewrite (remove_loop_return _ _ _ _ Hloop q), <- contains_In.
      destruct (Py.contains package_names q).
      * split; [discriminate | intros [_ H]; now elim H].
      * split; [intros H; split; [exact H | discriminate] | tauto].
    + intros m; cbn [_modules_to_packages]; apply dict_get_remove.
Qed.

Lemma remove_module_for_package_spec_witness :
  remove_module_for_package (init []) charts_id
    = (init [], Raise (KeyError charts_id))
  /\ exists self',
      remove_module_for_package charts_index charts_id = (self', Return tt)
      /\ (forall q,
            has_package self' q = true <->
            has_package charts_index q = true /\ ~ In q [charts_id])
      /\ (forall m,
            dict_get (_modules_to_packages self') m =
              if String.eqb "qtcharts" m then None
              else dict_get (_modules_to_packages charts_index) m).
Proof.
  split.
  - apply (proj1 (remove_module_for_package_spec (init []) charts_id)).
    reflexivity.
  - apply (proj2 (remove_module_for_package_spec charts_index charts_id)
             "qtcharts" [charts_id]).
    + reflexivity.
    + reflexivity.
    + constructor; [intros [] | constructor].
    + intros q [<- | []]; reflexivity.
Defined.

(** C9, as it is stated, fails: built from a map whose one module lists an
    identifier twice, the index holds [qt.charts.arch]; removing it raises
    [KeyError] at the repeated identifier, and afterwards [qt.charts.arch]
    is still a key of the reverse map and the module still has its entry
    in the forward map. *)
Lemma remove_stops_at_repeated_candidate :
  has_package (init repeated_map) "qt.charts.arch" = true
  /\ exists self',
      remove_module_for_package (init repeated_map) "qt.charts.arch"
        = (self', Raise (KeyError "qt.charts"))
      /\ has_package self' "qt.charts" = false
      /\ has_package self' "qt.charts.arch" = true
      /\ dict_mem (_modules_to_packages self') "qtcharts" = true.
Proof.
  split; [reflexivity |].
  eexists; repeat split.
Qed.

(** ** The reverse map as the inverse of the forward map *)

Lemma find_app {A : Type} (f : A -> bool) (l1 l2 : list A) :
  List.find f (l1 ++ l2) =
    match List.find f l1 with
    | Some x => Some x
    | None => List.find f l2
    end.
Proof.
  induction l1 as [| a l1 IH]; cbn [app List.find]; [reflexivity |].
  now destruct (f a).
Qed.

Lemma fold_set_get (key : string) (values : list string) :
  forall acc q,
    dict_get (fold_left (fun acc value => dict_set acc value key) values acc) q
    = if Py.contains values q then Some key else dict_get acc q.
Proof.
  induction values as [| v vs IH]; intros acc q; cbn [fold_left].
  - reflexivity.
  - rewrite IH, contains_cons, dict_get_set.
    destruct (Py.contains vs q), (String.eqb v q); reflexivity.
Qed.

(** The comprehension lets the last module that lists an identifier win. *)
Lemma invert_fold_get (initial_map : dict (list string)) :
  forall acc q,
    dict_get
      (fold_left
         (fun acc kv =>
            fold_left (fun acc value => dict_set acc value (fst kv))
              (snd kv) acc)
         initial_map acc) q
    = match List.find (fun kv => Py.contains (snd kv) q) (rev initial_map) with
      | Some kv => Some (fst kv)
      | None => dict_get acc q
      end.
Proof.
  induction initial_map as [| kv im IH]; intros acc q;
    cbn [fold_left rev]; [reflexivity |].
  rewrite IH, find_app; cbn [List.find].
  destruct (List.find (fun kv0 => Py.contains (snd kv0) q) (rev im));
    [reflexivity |].
  rewrite fold_set_get; now destruct (Py.contains (snd kv) q).
Qed.

Lemma invert_get (initial_map : dict (list string)) (q : string) :
  dict_get (invert initial_map) q =
    option_map fst
      (List.find (fun kv => Py.contains (snd kv) q) (rev initial_map)).
Proof.
  unfold invert; rewrite invert_fold_get.
  now destruct (List.find _ (rev initial_map)).
Qed.

Lemma init_exact_inverse (initial_map : dict (list string)) :
  dict_wf initial_map -> no_collision initial_map ->
  exact_inverse (init initial_map).
Proof.
  intros Hwf Hnc q m; unfold init; cbn [_packages_to_modules
    _modules_to_packages]; rewrite invert_get; split.
  - destruct (List.find _ (rev initial_map)) as [[m' l] |] eqn:Hf;
      [| discriminate].
    cbn [option_map fst]; intros [= ->].
    apply find_some in Hf as [Hin Hq]; cbn [snd] in Hq.
    exists l; split; [| now apply contains_In].
    apply dict_in_get; [exact Hwf | now apply in_rev].
  - intros (l & Hget & Hq); apply dict_get_in in Hget.
    destruct (List.find _ (rev initial_map)) as [[m' l'] |] eqn:Hf.
    + apply find_some in Hf as [Hin Hq']; cbn [snd] in Hq'.
      apply in_rev in Hin; apply contains_In in Hq'.
      cbn [option_map fst]; f_equal.
      exact (Hnc _ _ _ _ _ Hin Hget Hq' Hq).
    + exfalso.
      apply in_rev in Hget.
      pose proof (find_none _ _ Hf (m, l) Hget) as Hno.
      cbn [snd] in Hno; apply contains_In in Hq; congruence.
Qed.

Lemma add_loop_fresh (module_name : string) (package_names : list string)
    (p2m p2m' : dict string) (u : unit) (q : string) :
  add_loop module_name package_names p2m = (p2m', Return u) ->
  In q package_names -> dict_mem p2m q = false.
Proof.
  intros Hloop Hin; destruct (dict_mem p2m q) eqn:Hq; [| reflexivity].
  pose proof (add_loop_collision module_name package_names p2m q Hin Hq) as H.
  rewrite Hloop in H; discriminate.
Qed.

Lemma add_exact_inverse (self self' : ModuleToPackage) (module_name : string)
    (package_names : list string) :
  exact_inverse self ->
  add self module_name package_names = (self', Return tt) ->
  exact_inverse self'.
Proof.
  intros Hinv Hadd.
  destruct (add_return _ _ _ _ _ Hadd) as [Hfwd Hrev].
  assert (Hfresh : forall q, In q package_names ->
                     dict_get (_packages_to_modules self) q = None).
  { intros q Hq; unfold add in Hadd.
    destruct (add_loop module_name package_names (_packages_to_modules self))
      as [p2m r] eqn:Hloop.
    injection Hadd as _ ->.
    pose proof (add_loop_fresh _ _ _ _ _ q Hloop Hq) as H.
    unfold dict_mem in H.
    now destruct (dict_get (_packages_to_modules self) q). }
  intros q m; rewrite Hrev, Hfwd, dict_get_set.
  unfold dict_get_default.
  destruct (Py.contains package_names q) eqn:Hc.
  - apply contains_In in Hc; split.
    + intros [= <-]; rewrite String.eqb_refl.
      eexists; split; [reflexivity | apply in_or_app; now right].
    + intros (l & Hl & Hq).
      destruct (String.eqb_spec module_name m) as [-> | Hne]; [reflexivity |].
      assert (H : dict_get (_packages_to_modules self) q = Some m)
        by (apply Hinv; now exists l).
      rewrite (Hfresh q Hc) in H; discriminate.
  - assert (Hnot : ~ In q package_names)
      by (intros H; apply contains_In in H; congruence).
    rewrite (Hinv q m); split.
    + intros (l & Hl & Hq).
      destruct (String.eqb_spec module_name m) as [-> | Hne].
      * rewrite Hl; eexists; split; [reflexivity |].
        apply in_or_app; now left.
      * now exists l.
    + intros (l & Hl & Hq).
      destruct (String.eqb_spec module_name m) as [-> | Hne].
      * injection Hl as <-.
        apply in_app_or in Hq as [Hq | Hq]; [| contradiction].
        destruct (dict_get (_modules_to_packages self) m) as [old |];
          [now exists old | destruct Hq].
      * now exists l.
Qed.

Lemma remove_exact_inverse (self self' : ModuleToPackage)
    (package_name : string) :
  exact_inverse self ->
  remove_module_for_package self package_name = (self', Return tt) ->
  exact_inverse self'.
Proof.
  intros Hinv Hrem.
  destruct (remove_return _ _ _ _ Hrem)
    as (module_name & package_names & Hp & Hm & Hfwd & Hrev).
  intros q m; rewrite Hrev, Hfwd, dict_get_remove.
  destruct (String.eqb_spec module_name m) as [<- | Hne].
  - split; [| intros (l & Hl & _); discriminate].
    destruct (Py.contains package_names q) eqn:Hc; [discriminate |].
    intros H; apply Hinv in H as (l & Hl & Hq).
    rewrite Hm in Hl; injection Hl as <-.
    apply contains_In in Hq; congruence.
  - destruct (Py.contains package_names q) eqn:Hc; [| apply Hinv].
    split; [discriminate |].
    intros H; apply Hinv in H.
    apply contains_In in Hc.
    assert (H' : dict_get (_packages_to_modules self) q = Some module_name)
      by (apply Hinv; now exists package_names).
    congruence.
Qed.

(** C7, as the code has it: the index built from a map in which no
    identifier is listed by two modules has a reverse map that is the exact
    inverse of its forward map, and an [add] or a
    [remove_module_for_package] that returns keeps it so. *)
Theorem exact_inverse_maintained :
  (forall initial_map,
      dict_wf initial_map -> no_collision initial_map ->
      exact_inverse (init initial_map))
  /\ (forall self self' module_name package_names,
        exact_inverse self ->
        add self module_name package_names = (self', Return tt) ->
        exact_inverse self')
  /\ (forall self self' package_name,
        exact_inverse self ->
        remove_module_for_package self package_name = (self', Return tt) ->
        exact_inverse self').
Proof.
  split; [exact init_exact_inverse |].
  split; [intros; eapply add_exact_inverse; eassumption |].
  intros; eapply remove_exact_inverse; eassumption.
Qed.

Lemma exact_inverse_maintained_witness :
  exact_inverse (init [("qtcharts", [charts_id])])
  /\ exact_inverse charts_index
  /\ exact_inverse (init []).
Proof.
  assert (Hempty : exact_inverse (init [])).
  { apply (proj1 exact_inverse_maintained []).
    - constructor.
    - intros m1 l1 m2 l2 p []. }
  split; [| split].
  - apply (proj1 exact_inverse_maintained [("qtcharts", [charts_id])]).
    + repeat constructor; intros [].
    + intros m1 l1 m2 l2 p [[= <- <-] | []] [[= <- <-] | []] _ _.
      reflexivity.
  - apply (proj1 (proj2 exact_inverse_maintained)
             (init []) charts_index "qtcharts" [charts_id] Hempty).
    reflexivity.
  - apply (proj2 (proj2 exact_inverse_maintained)
             charts_index (init []) charts_id).
    + apply (proj1 (proj2 exact_inverse_maintained)
               (init []) charts_index "qtcharts" [charts_id] Hempty).
      reflexivity.
    + reflexivity.
Defined.

(** C7, as it is stated, fails at construction: from a map in which two
    modules list [qt.charts], the reverse map sends [qt.charts] to the
    module listed last, although the first module lists it as well. *)
Lemma init_collision_not_inverse :
  dict_wf colliding_map
  /\ dict_get (_packages_to_modules (init colliding_map)) "qt.charts"
     = Some "qtsvg"
  /\ dict_get (_modules_to_packages (init colliding_map)) "qtcharts"
     = Some ["qt.charts"]
  /\ ~ exact_inverse (init colliding_map).
Proof.
  split; [| split; [reflexivity | split; [reflexivity |]]].
  - repeat constructor; cbn; intuition discriminate.
  - intros Hinv.
    assert (H : dict_get (_packages_to_modules (init colliding_map))
                  "qt.charts" = Some "qtcharts").
    { apply Hinv; exists ["qt.charts"]; split; [reflexivity | now left]. }
    discriminate H.
Qed.

(** ** One pass of [dfs] over the records *)

Lemma contains_app (l1 l2 : list string) (x : string) :
  Py.contains (l1 ++ l2) x = Py.contains l1 x || Py.contains l2 x.
Proof. unfold Py.contains; apply existsb_app. Qed.

Lemma contains_snoc (l : list string) (y x : string) :
  Py.contains (l ++ [y]) x = Py.contains l x || String.eqb y x.
Proof.
  rewrite contains_app, contains_cons; cbn; now rewrite orb_false_r.
Qed.

Lemma push_unvisited_filter (visited items : list string) :
  forall filo,
    push_unvisited visited items filo =
      rev (filter (fun d => negb (Py.contains visited d)) items) ++ filo.
Proof.
  unfold push_unvisited.
  induction items as [| d items IH]; intros filo; cbn [fold_left filter];
    [reflexivity |].
  rewrite IH; destruct (Py.contains visited d); cbn [negb rev];
    [reflexivity |].
  now rewrite <- app_assoc.
Qed.

Lemma iterate_items (q : pyseq) : fst (iterate q) = pending_items q.
Proof. now destruct q. Qed.

Lemma iterate_pending (q : pyseq) :
  List.length (pending_items (snd (iterate q)))
  <= List.length (pending_items q).
Proof. destruct q; cbn; lia. Qed.

Lemma total_deps_cons (entry : PackageUpdate) (entries : list PackageUpdate) :
  total_deps (entry :: entries) = deps_count entry + total_deps entries.
Proof. reflexivity. Qed.

(** What one pass leaves behind when it does not raise: the names of the
    records are untouched, the sequences have no more to yield than
    before, [visited] has gained at most [next], and the identifiers put
    on the stack are not in the new [visited]. *)
Lemma dfs_scan_return (next : string) (entries : list PackageUpdate) :
  forall filo visited entries' filo' visited',
    dfs_scan next entries filo visited
      = (entries', Return (filo', visited')) ->
    map name entries' = map name entries
    /\ total_deps entries' <= total_deps entries
    /\ (forall x,
          Py.contains visited' x =
            Py.contains visited x
            || (Py.contains (map name entries) next && String.eqb next x))
    /\ exists pushed,
        filo' = pushed ++ filo
        /\ List.length pushed <= total_deps entries
        /\ (forall d, In d pushed -> Py.contains visited' d = false)
        /\ (Py.contains (map name entries) next = false -> pushed = []).
Proof.
  induction entries as [| entry rest IH];
    intros filo visited entries' filo' visited'; cbn [dfs_scan].
  - intros [= <- <- <-]; repeat split; try lia.
    + intros x; cbn; now rewrite orb_false_r.
    + exists []; repeat split; cbn; [lia | tauto].
  - destruct (String.eqb_spec (name entry) next) as [Hname | Hname].
    + destruct (dependencies entry) as [q |] eqn:Hq; [| discriminate].
      destruct (iterate q) as [items q'] eqn:Hit.
      destruct (dfs_scan next rest
                  (push_unvisited (visited ++ [next]) items filo)
                  (visited ++ [next])) as [rest' r] eqn:Hscan.
      intros [= <- ->].
      destruct (IH _ _ _ _ _ Hscan)
        as (Hnames & Htotal & Hvis & pushed & Hfilo & Hlen & Hpushed & _).
      assert (Hitems : items = pending_items q)
        by (rewrite <- iterate_items, Hit; reflexivity).
      assert (Hq' : List.length (pending_items q')
                    <= List.length (pending_items q)).
      { pose proof (iterate_pending q) as H; now rewrite Hit in H. }
      assert (Hvis' : forall x,
                 Py.contains visited' x
                 = Py.contains visited x || String.eqb next x).
      { intros x; rewrite Hvis, contains_snoc.
        destruct (Py.contains visited x), (String.eqb next x),
          (Py.contains (map name rest) next); reflexivity. }
      assert (Hdc : deps_count entry = List.length (pending_items q))
        by (unfold deps_count; now rewrite Hq).
      rewrite !total_deps_cons, Hdc; unfold deps_count; cbn [dependencies].
      cbn [map name]; rewrite Hnames.
      split; [reflexivity | split; [lia | split]].
      * intros x; rewrite Hvis', contains_cons, Hname, String.eqb_refl.
        reflexivity.
      * rewrite push_unvisited_filter in Hfilo.
        exists (pushed
                ++ rev (filter
                          (fun d => negb (Py.contains (visited ++ [next]) d))
                          items)).
        split; [now rewrite <- app_assoc | split; [| split]].
        -- rewrite length_app, length_rev.
           pose proof (filter_length_le
                         (fun d => negb (Py.contains (visited ++ [next]) d))
                         items) as Hf.
           rewrite Hitems in Hf |- *; lia.
        -- intros d Hd; apply in_app_or in Hd as [Hd | Hd]; [auto |].
           apply in_rev, filter_In in Hd as [_ Hd].
           rewrite contains_snoc in Hd; rewrite Hvis'.
           now destruct (Py.contains visited d), (String.eqb next d).
        -- rewrite contains_cons, Hname, String.eqb_refl; discriminate.
    + destruct (dfs_scan next rest filo visited) as [rest' r] eqn:Hscan.
      intros [= <- ->].
      destruct (IH _ _ _ _ _ Hscan)
        as (Hnames & Htotal & Hvis & pushed & Hfilo & Hlen & Hpushed & Hno).
      rewrite !total_deps_cons; cbn [map]; rewrite Hnames.
      assert (Hc : Py.contains (name entry :: map name rest) next
                   = Py.contains (map name rest) next).
      { rewrite contains_cons.
        destruct (String.eqb_spec (name entry) next); [contradiction |].
        reflexivity. }
      rewrite Hc.
      split; [reflexivity | split; [lia | split; [exact Hvis |]]].
      exists pushed; repeat split; try assumption; lia.
Qed.

(** ** Termination of the loop of [dfs] *)

Lemma list_sum_cons (a : nat) (l : list nat) :
  list_sum (a :: l) = a + list_sum l.
Proof. reflexivity. Qed.

Lemma list_sum_le_each {A : Type} (f g : A -> nat) (l : list A) :
  (forall x, In x l -> f x <= g x) ->
  list_sum (map f l) <= list_sum (map g l).
Proof.
  induction l as [| a l IH]; cbn [map]; rewrite ?list_sum_cons; intros H;
    [lia |].
  pose proof (H a (or_introl eq_refl)).
  assert (list_sum (map f l) <= list_sum (map g l))
    by (apply IH; intros x Hx; apply H; now right).
  lia.
Qed.

Lemma list_sum_le_bound {A : Type} (f : A -> nat) (b : nat) (l : list A) :
  (forall x, In x l -> f x <= b) ->
  list_sum (map f l) <= List.length l * b.
Proof.
  induction l as [| a l IH]; cbn [map List.length]; rewrite ?list_sum_cons;
    intros H; [cbn; lia |].
  pose proof (H a (or_introl eq_refl)).
  assert (list_sum (map f l) <= List.length l * b)
    by (apply IH; intros x Hx; apply H; now right).
  lia.
Qed.

Section Termination.

Variable d : nat.
Variable names : list string.

Lemma weight_pos (k : nat) : 1 <= weight d k.
Proof. destruct k; cbn [weight]; lia. Qed.

Lemma weight_succ (k : nat) : weight d k <= weight d (S k).
Proof.
  induction k as [| k IH]; cbn [weight] in *; [lia |].
  apply le_n_S, Nat.mul_le_mono_l, IH.
Qed.

Lemma weight_mono (k k' : nat) : k <= k' -> weight d k <= weight d k'.
Proof.
  induction 1 as [| k' _ IH]; [lia |].
  etransitivity; [exact IH | apply weight_succ].
Qed.

Lemma unvisited_le (visited visited' : list string) :
  (forall x, Py.contains visited x = true -> Py.contains visited' x = true) ->
  unvisited names visited' <= unvisited names visited.
Proof.
  intros Hsub; unfold unvisited.
  induction names as [| n ns IH]; cbn [filter]; [lia |].
  destruct (Py.contains visited n) eqn:Hn.
  - rewrite (Hsub n Hn); cbn [negb]; exact IH.
  - destruct (Py.contains visited' n); cbn [negb List.length]; lia.
Qed.

Lemma unvisited_lt (visited visited' : list string) (n : string) :
  (forall x, Py.contains visited x = true -> Py.contains visited' x = true) ->
  In n names ->
  Py.contains visited n = false -> Py.contains visited' n = true ->
  unvisited names visited' < unvisited names visited.
Proof.
  intros Hsub Hin Hn Hn'; unfold unvisited.
  induction names as [| n0 ns IH]; cbn [filter]; [destruct Hin |].
  pose proof (unvisited_le visited visited' Hsub) as Hle.
  assert (Hrest :
            List.length (filter (fun n => negb (Py.contains visited' n)) ns)
            <= List.length (filter (fun n => negb (Py.contains visited n)) ns)).
  { clear IH Hin Hle.
    induction ns as [| m ms IHm]; cbn [filter]; [lia |].
    destruct (Py.contains visited m) eqn:Hm.
    - rewrite (Hsub m Hm); cbn [negb]; exact IHm.
    - destruct (Py.contains visited' m); cbn [negb List.length]; lia. }
  destruct Hin as [-> | Hin].
  - rewrite Hn, Hn'; cbn [negb List.length]; lia.
  - specialize (IH Hin).
    destruct (Py.contains visited n0) eqn:Hn0.
    + rewrite (Hsub n0 Hn0); cbn [negb]; exact IH.
    + destruct (Py.contains visited' n0); cbn [negb List.length]; lia.
Qed.

Lemma stack_weight_pos (visited : list string) (x : string) :
  1 <= stack_weight d names visited x.
Proof.
  unfold stack_weight.
  destruct (Py.contains names x); [| lia].
  destruct (Py.contains visited x); apply weight_pos.
Qed.

Lemma potential_zero (filo visited : list string) :
  potential d names filo visited = 0 -> filo = [].
Proof.
  destruct filo as [| x filo]; [reflexivity |].
  unfold potential; cbn [map]; rewrite list_sum_cons.
  pose proof (stack_weight_pos visited x); lia.
Qed.

(** Nothing on the stack gets heavier when identifiers are visited. *)
Lemma stack_weight_visit (visited visited' : list string) (x : string) :
  (forall y, Py.contains visited y = true -> Py.contains visited' y = true) ->
  stack_weight d names visited' x <= stack_weight d names visited x.
Proof.
  intros Hsub; unfold stack_weight.
  destruct (Py.contains names x) eqn:Hx; [| lia].
  pose proof (unvisited_le visited visited' Hsub) as Hle.
  destruct (Py.contains visited x) eqn:Hv.
  - rewrite (Hsub x Hv); apply weight_mono; lia.
  - destruct (Py.contains visited' x) eqn:Hv'.
    + apply weight_mono.
      apply contains_In in Hx.
      exact (unvisited_lt visited visited' x Hsub Hx Hv Hv').
    + now apply weight_mono.
Qed.

(** One pass that does not raise lowers the potential. *)
Lemma dfs_scan_potential (next : string) (entries entries' : list PackageUpdate)
    (filo visited filo' visited' : list string) :
  map name entries = names ->
  total_deps entries <= d ->
  dfs_scan next entries filo visited = (entries', Return (filo', visited')) ->
  potential d names filo' visited' < potential d names (next :: filo) visited.
Proof.
  intros Hnames Htotal Hscan.
  destruct (dfs_scan_return _ _ _ _ _ _ _ Hscan)
    as (_ & _ & Hvis & pushed & -> & Hlen & Hpushed & Hnone).
  rewrite Hnames in Hvis, Hnone.
  assert (Hsub : forall y, Py.contains visited y = true ->
                           Py.contains visited' y = true).
  { intros y Hy; now rewrite Hvis, Hy. }
  unfold potential; cbn [map]; rewrite list_sum_cons.
  rewrite map_app, list_sum_app.
  assert (Hrest : list_sum (map (stack_weight d names visited') filo)
                  <= list_sum (map (stack_weight d names visited) filo)).
  { apply list_sum_le_each; intros x _; now apply stack_weight_visit. }
  destruct (Py.contains names next) eqn:Hmatch.
  - set (u' := unvisited names visited').
    assert (Hp : list_sum (map (stack_weight d names visited') pushed)
                 <= List.length pushed * weight d u').
    { apply list_sum_le_bound; intros x Hx; unfold stack_weight.
      rewrite (Hpushed x Hx).
      destruct (Py.contains names x); [reflexivity | apply weight_pos]. }
    assert (Hnext : 1 + d * weight d u' <= stack_weight d names visited next).
    { unfold stack_weight; rewrite Hmatch.
      change (1 + d * weight d u') with (weight d (S u')).
      pose proof (unvisited_le visited visited' Hsub) as Hle.
      destruct (Py.contains visited next) eqn:Hv.
      - apply weight_mono; fold u'; lia.
      - apply weight_mono.
        apply contains_In in Hmatch.
        apply (unvisited_lt visited visited' next Hsub Hmatch Hv).
        now rewrite Hvis, String.eqb_refl, orb_true_r. }
    assert (List.length pushed * weight d u' <= d * weight d u')
      by (apply Nat.mul_le_mono_r; lia).
    lia.
  - rewrite (Hnone eq_refl); cbn [map]; change (list_sum []) with 0.
    pose proof (stack_weight_pos visited next); lia.
Qed.

Lemma dfs_loop_ends (fuel : nat) :
  forall entries filo packages visited,
    map name entries = names ->
    total_deps entries <= d ->
    potential d names filo visited <= fuel ->
    exists entries' out,
      dfs_loop fuel entries filo packages visited = (entries', Some out).
Proof.
  induction fuel as [| fuel IH]; intros entries filo packages visited
    Hnames Htotal Hpot.
  - assert (filo = []) as -> by (apply (potential_zero _ visited); lia).
    now exists entries, (Return packages).
  - destruct filo as [| next filo]; [now exists entries, (Return packages) |].
    cbn [dfs_loop].
    destruct (dfs_scan next entries filo visited)
      as [entries1 [[filo1 visited1] | e]] eqn:Hscan.
    + pose proof (dfs_scan_potential _ _ _ _ _ _ _ Hnames Htotal Hscan).
      destruct (dfs_scan_return _ _ _ _ _ _ _ Hscan) as (Hn & Ht & _).
      apply IH; [congruence | lia | lia].
    + now exists entries1, (Raise e).
Qed.

End Termination.

Lemma dfs_loop_more_fuel (fuel : nat) :
  forall fuel' entries filo packages visited entries' out,
    dfs_loop fuel entries filo packages visited = (entries', Some out) ->
    fuel <= fuel' ->
    dfs_loop fuel' entries filo packages visited = (entries', Some out).
Proof.
  induction fuel as [| fuel IH];
    intros fuel' entries filo packages visited entries' out.
  - destruct filo; cbn [dfs_loop]; [| discriminate].
    intros H _; destruct fuel'; exact H.
  - destruct filo as [| next filo]; cbn [dfs_loop].
    + intros H _; destruct fuel'; exact H.
    + intros H Hle; destruct fuel' as [| fuel']; [lia |].
      cbn [dfs_loop].
      destruct (dfs_scan next entries filo visited)
        as [entries1 [[filo1 visited1] | e]]; [| exact H].
      apply (IH _ _ _ _ _ _ _ H); lia.
Qed.

Lemma dfs_fuel_enough (entries : list PackageUpdate) (target : string) :
  potential (total_deps entries) (map name entries) [target] []
  <= dfs_fuel entries.
Proof.
  assert (Hu : unvisited (map name entries) [] = List.length entries).
  { unfold unvisited; cbn [Py.contains existsb negb].
    induction entries as [| e es IH]; cbn [map filter List.length];
      [reflexivity | now rewrite IH]. }
  unfold potential, dfs_fuel; cbn [map].
  rewrite list_sum_cons; change (list_sum []) with 0.
  rewrite Nat.add_0_r; unfold stack_weight; rewrite Hu.
  change (Py.contains [] target) with false.
  destruct (Py.contains (map name entries) target).
  - apply weight_succ.
  - apply weight_pos.
Qed.

(** ** What [dfs] gives *)

Lemma dfs_scan_raise (next : string) (entries : list PackageUpdate) :
  forall filo visited entries' e,
    dfs_scan next entries filo visited = (entries', Raise e) ->
    e = TypeError
    /\ exists entry,
        In entry entries /\ name entry = next /\ dependencies entry = None.
Proof.
  induction entries as [| entry rest IH]; intros filo visited entries' e;
    cbn [dfs_scan]; [discriminate |].
  destruct (String.eqb_spec (name entry) next) as [Hname | Hname].
  - destruct (dependencies entry) as [q |] eqn:Hq.
    + destruct (iterate q) as [items q'].
      destruct (dfs_scan next rest _ _) as [rest' r] eqn:Hscan.
      intros [= _ ->].
      destruct (IH _ _ _ _ Hscan) as (He & entry0 & Hin & H0).
      split; [exact He | exists entry0; split; [now right | exact H0]].
    + intros [= _ <-]; split; [reflexivity |].
      exists entry; repeat split; [now left | assumption | assumption].
  - destruct (dfs_scan next rest filo visited) as [rest' r] eqn:Hscan.
    intros [= _ ->].
    destruct (IH _ _ _ _ Hscan) as (He & entry0 & Hin & H0).
    split; [exact He | exists entry0; split; [now right | exact H0]].
Qed.

Lemma dfs_scan_no_match (next : string) (entries : list PackageUpdate) :
  Py.contains (map name entries) next = false ->
  forall filo visited,
    dfs_scan next entries filo visited = (entries, Return (filo, visited)).
Proof.
  induction entries as [| entry rest IH]; cbn [map dfs_scan];
    [reflexivity |].
  rewrite contains_cons; intros H filo visited.
  apply orb_false_elim in H as [Hname Hrest].
  now rewrite Hname, (IH Hrest).
Qed.

Lemma dfs_loop_prefix (fuel : nat) :
  forall entries filo packages visited entries' result,
    dfs_loop fuel entries filo packages visited
      = (entries', Some (Return result)) ->
    exists tl, result = packages ++ tl.
Proof.
  induction fuel as [| fuel IH];
    intros entries filo packages visited entries' result.
  - destruct filo; cbn [dfs_loop]; [| discriminate].
    intros [= _ <-]; exists []; now rewrite app_nil_r.
  - destruct filo as [| next filo]; cbn [dfs_loop].
    + intros [= _ <-]; exists []; now rewrite app_nil_r.
    + destruct (dfs_scan next entries filo visited)
        as [entries1 [[filo1 visited1] | e]]; [| discriminate].
      intros H; apply IH in H as [tl ->].
      exists (next :: tl); now rewrite <- app_assoc.
Qed.

Lemma dfs_loop_raise (fuel : nat) :
  forall entries filo packages visited entries' e,
    dfs_loop fuel entries filo packages visited = (entries', Some (Raise e)) ->
    e = TypeError.
Proof.
  induction fuel as [| fuel IH];
    intros entries filo packages visited entries' e.
  - destruct filo; cbn [dfs_loop]; discriminate.
  - destruct filo as [| next filo]; cbn [dfs_loop]; [discriminate |].
    destruct (dfs_scan next entries filo visited)
      as [entries1 [[filo1 visited1] | e1]] eqn:Hscan.
    + now apply IH.
    + intros [= _ <-]; now apply dfs_scan_raise in Hscan.
Qed.

Lemma dfs_unfold (self : Updates) (target : string) :
  dfs self target =
    (mkUpdates (application_name self) (application_version self)
       (fst (dfs_loop (dfs_fuel (package_updates self))
               (package_updates self) [target] [] [])),
     snd (dfs_loop (dfs_fuel (package_updates self))
            (package_updates self) [target] [] [])).
Proof. unfold dfs; now destruct dfs_loop. Qed.

(** Whatever [dfs] returns starts with the target. *)
Lemma dfs_result_starts_with_target (self : Updates) (target : string)
    (result : list string) :
  snd (dfs self target) = Some (Return result) ->
  exists tl, result = target :: tl.
Proof.
  rewrite dfs_unfold; cbn [snd]; unfold dfs_fuel; cbn [weight Nat.add].
  cbn [dfs_loop].
  destruct (dfs_scan target (package_updates self) [] [])
    as [entries1 [[filo1 visited1] | e]]; [| discriminate].
  destruct (dfs_loop _ entries1 filo1 ([] ++ [target]) visited1)
    as [entries2 r] eqn:Hloop.
  cbn [snd]; intros ->.
  apply dfs_loop_prefix in Hloop as [tl ->]; now exists tl.
Qed.

(** A target that no record is named after comes back alone, and the
    catalog is as before. *)
Lemma dfs_unmatched_target (self : Updates) (target : string) :
  Py.contains (map name (package_updates self)) target = false ->
  dfs self target = (self, Some (Return [target])).
Proof.
  intros Hno; rewrite dfs_unfold; unfold dfs_fuel; cbn [weight Nat.add].
  cbn [dfs_loop]; rewrite (dfs_scan_no_match _ _ Hno).
  destruct (total_deps (package_updates self) * _); cbn [dfs_loop fst snd];
    now destruct self.
Qed.

(** [dfs] raises nothing but the [TypeError] of a record without
    dependencies. *)
Lemma dfs_raises_only_type_error (self : Updates) (target : string) (e : exn) :
  snd (dfs self target) = Some (Raise e) -> e = TypeError.
Proof.
  rewrite dfs_unfold; cbn [snd].
  destruct (dfs_loop _ _ _ _ _) as [entries1 r] eqn:Hloop.
  cbn [snd]; intros ->; now apply dfs_loop_raise in Hloop.
Qed.

(** [dfs_fuel] iterations are enough. *)
Lemma dfs_loop_ends_within_fuel (entries : list PackageUpdate)
    (target : string) :
  exists entries' out,
    dfs_loop (dfs_fuel entries) entries [target] [] [] = (entries', Some out).
Proof.
  exact (dfs_loop_ends (total_deps entries) (map name entries)
           (dfs_fuel entries) entries [target] [] [] eq_refl (le_n _)
           (dfs_fuel_enough entries target)).
Qed.

(** C4: the loop of [dfs] ends for every catalog and every target:
    [dfs_fuel] iterations are enough, more iterations change nothing, and
    the call has then returned its list or raised the [TypeError] of a
    record without dependencies. *)
Theorem dfs_terminates (self : Updates) (target : string) :
  exists self' out,
    dfs self target = (self', Some out)
    /\ (forall fuel,
          dfs_fuel (package_updates self) <= fuel ->
          dfs_loop fuel (package_updates self) [target] [] []
            = (package_updates self', Some out))
    /\ (out = Raise TypeError \/ exists packages, out = Return packages).
Proof.
  destruct (dfs_loop_ends_within_fuel (package_updates self) target)
    as (entries' & out & Hloop).
  exists (mkUpdates (application_name self) (application_version self)
            entries'), out.
  split; [| split].
  - unfold dfs; now rewrite Hloop.
  - intros fuel Hfuel; cbn [package_updates].
    exact (dfs_loop_more_fuel _ _ _ _ _ _ _ _ Hloop Hfuel).
  - destruct out as [packages | e]; [right; now exists packages | left].
    f_equal; now apply dfs_loop_raise in Hloop.
Qed.

Lemma dfs_terminates_witness :
  exists self' out,
    dfs cyclic_catalog "a" = (self', Some out)
    /\ dfs_loop (S (dfs_fuel (package_updates cyclic_catalog)))
         (package_updates cyclic_catalog) ["a"] [] []
       = (package_updates self', Some out).
Proof.
  destruct (dfs_terminates cyclic_catalog "a") as (self' & out & H & Hfuel & _).
  exists self', out; split; [exact H |].
  apply Hfuel, Nat.le_succ_diag_r.
Defined.

Lemma dfs_cyclic_catalog :
  snd (dfs cyclic_catalog "a") = Some (Return ["a"; "c"; "b"; "x"; "c"]).
Proof. vm_compute; reflexivity. Qed.

(** ** Records without dependencies *)

Lemma dfs_scan_keeps_dependencies (next : string)
    (entries : list PackageUpdate) :
  forall filo visited entries' r,
    Forall (fun entry => dependencies entry <> None) entries ->
    dfs_scan next entries filo visited = (entries', r) ->
    Forall (fun entry => dependencies entry <> None) entries'.
Proof.
  induction entries as [| entry rest IH]; intros filo visited entries' r Hall;
    cbn [dfs_scan].
  - intros [= <- _]; constructor.
  - inversion Hall as [| ? ? Hentry Hrest]; subst.
    destruct (String.eqb (name entry) next).
    + destruct (dependencies entry) as [q |] eqn:Hq; [| congruence].
      destruct (iterate q) as [items q'].
      destruct (dfs_scan next rest _ _) as [rest' r'] eqn:Hscan.
      intros [= <- _]; constructor; [discriminate |].
      exact (IH _ _ _ _ Hrest Hscan).
    + destruct (dfs_scan next rest filo visited) as [rest' r'] eqn:Hscan.
      intros [= <- _]; constructor; [exact Hentry |].
      exact (IH _ _ _ _ Hrest Hscan).
Qed.

Lemma dfs_loop_no_raise (fuel : nat) :
  forall entries filo packages visited entries' e,
    Forall (fun entry => dependencies entry <> None) entries ->
    dfs_loop fuel entries filo packages visited <> (entries', Some (Raise e)).
Proof.
  induction fuel as [| fuel IH];
    intros entries filo packages visited entries' e Hall.
  - destruct filo; cbn [dfs_loop]; discriminate.
  - destruct filo as [| next filo]; cbn [dfs_loop]; [discriminate |].
    destruct (dfs_scan next entries filo visited)
      as [entries1 [[filo1 visited1] | e1]] eqn:Hscan.
    + apply IH; exact (dfs_scan_keeps_dependencies _ _ _ _ _ _ Hall Hscan).
    + exfalso.
      destruct (dfs_scan_raise _ _ _ _ _ _ Hscan)
        as (_ & entry & Hin & _ & Hnone).
      rewrite Forall_forall in Hall; exact (Hall entry Hin Hnone).
Qed.

(** Where every record has a sequence of dependencies, [dfs] returns. *)
Lemma dfs_returns_with_dependencies (self : Updates) (target : string) :
  Forall (fun entry => dependencies entry <> None) (package_updates self) ->
  exists self' tl, dfs self target = (self', Some (Return (target :: tl))).
Proof.
  intros Hall.
  destruct (dfs_loop_ends_within_fuel (package_updates self) target)
    as (entries' & out & Hloop).
  destruct out as [result | e].
  - assert (H : snd (dfs self target) = Some (Return result))
      by (unfold dfs; now rewrite Hloop).
    apply dfs_result_starts_with_target in H as [tl ->].
    eexists; exists tl; unfold dfs; now rewrite Hloop.
  - exfalso; exact (dfs_loop_no_raise _ _ _ _ _ _ _ Hall Hloop).
Qed.

(** C2: the catalog parsed from a document in which the package
    [qt.base] has no [Dependencies] element holds [None] as the
    dependencies of that record, and [dfs] of [qt.base] raises
    [TypeError] when it iterates it. *)
Theorem dfs_raises_on_record_without_dependencies :
  fromstring_root chain_document = Return chain_catalog
  /\ map dependencies (package_updates chain_catalog)
     = [Some (PyGen ["qt.base"; "qt.tools"]); None]
  /\ snd (dfs chain_catalog "qt.base") = Some (Raise TypeError).
Proof. repeat split. Qed.

(** C3: on the same catalog [dfs] of [qt.charts], which has a record,
    gives no result at all: it reaches the record of [qt.base], which has
    no dependencies, and raises [TypeError]. *)
Theorem dfs_of_dependent_gives_no_result :
  fromstring_root chain_document = Return chain_catalog
  /\ Py.contains (map name (package_updates chain_catalog)) "qt.charts" = true
  /\ snd (dfs chain_catalog "qt.charts") = Some (Raise TypeError).
Proof. repeat split. Qed.

(** The forward map is assigned before the loop of [add] runs: when the
    assertion fails on an identifier added again to its own module, the
    candidate list of the module has been extended all the same. *)
Lemma add_failed_leaves_forward_extended :
  add charts_index "qtcharts" [charts_id]
  = (mkModuleToPackage [("qtcharts", [charts_id; charts_id])]
       [(charts_id, "qtcharts")],
     Raise (AssertionError collision_msg)).
Proof. reflexivity. Qed.

(* ================================================================== *)
(** * Further properties *)

(** ** [get_from_arch] and [extend] *)

Lemma endswith_suffix (s suffix : string) :
  endswith s suffix = true <-> exists prefix, s = (prefix ++ suffix)%string.
Proof.
  induction s as [| c s IH]; cbn [endswith].
  - rewrite orb_false_r, String.eqb_eq; split.
    + intros <-; now exists EmptyString.
    + intros ([| c p] & H); cbn [append] in H; [auto | discriminate].
  - rewrite orb_true_iff, String.eqb_eq, IH; split.
    + intros [<- | (p & ->)]; [now exists EmptyString |].
      now exists (String c p).
    + intros ([| c' p] & H); cbn [append] in H; [now left |].
      injection H as <- ->; right; now exists p.
Qed.

Lemma get_from_arch_loop (arch : string) (updates : list PackageUpdate) :
  forall result,
    fold_left
      (fun result update =>
         if endswith (name update) arch then result ++ [update] else result)
      updates result
    = result ++ filter (fun update => endswith (name update) arch) updates.
Proof.
  induction updates as [| u us IH]; intros result; cbn [fold_left filter].
  - now rewrite app_nil_r.
  - rewrite IH; destruct (endswith (name u) arch); [| reflexivity].
    now rewrite <- app_assoc.
Qed.

Lemma get_from_arch_filter (self : Updates) (arch : string) :
  get_from_arch self arch
  = filter (fun update => endswith (name update) arch) (package_updates self).
Proof. unfold get_from_arch; now rewrite get_from_arch_loop. Qed.

(** X1: [get_from_arch] returns the records of the catalog whose name
    ends with [arch], each as often as the catalog has it and in the order
    of the catalog; a record is returned exactly when its name is some
    prefix followed by [arch]. *)
Theorem get_from_arch_suffix_records (self : Updates) (arch : string) :
  get_from_arch self arch
  = filter (fun update => endswith (name update) arch) (package_updates self)
  /\ forall update,
      In update (get_from_arch self arch) <->
      In update (package_updates self)
      /\ exists prefix, name update = (prefix ++ arch)%string.
Proof.
  split; [apply get_from_arch_filter |].
  intros update; rewrite get_from_arch_filter, filter_In, endswith_suffix.
  reflexivity.
Qed.

Lemma endswith_empty (s : string) : endswith s "" = true.
Proof. apply endswith_suffix; exists s; induction s; cbn; congruence. Qed.

(** X2: the empty suffix selects the whole catalog, and a suffix that no
    name ends with selects nothing. *)
Theorem get_from_arch_all_or_nothing (self : Updates) (arch : string) :
  get_from_arch self "" = package_updates self
  /\ ((forall update, In update (package_updates self) ->
                      endswith (name update) arch = false) ->
      get_from_arch self arch = []).
Proof.
  rewrite !get_from_arch_filter; split.
  - induction (package_updates self) as [| u us IH]; cbn [filter];
      [reflexivity |].
    now rewrite endswith_empty, IH.
  - intros Hnone.
    induction (package_updates self) as [| u us IH]; cbn [filter];
      [reflexivity |].
    rewrite (Hnone u (or_introl eq_refl)).
    apply IH; intros update Hin; apply Hnone; now right.
Qed.

Lemma get_from_arch_all_or_nothing_witness :
  get_from_arch chain_catalog "" = package_updates chain_catalog
  /\ get_from_arch chain_catalog "win32_mingw73" = [].
Proof.
  split.
  - apply (proj1 (get_from_arch_all_or_nothing chain_catalog "")).
  - apply (proj2 (get_from_arch_all_or_nothing chain_catalog "win32_mingw73")).
    intros update [<- | [<- | []]]; reflexivity.
Defined.

(** X3: merging keeps the application fields of the left catalog and puts
    the records of the right one after its own, so that selecting by
    suffix from the merged catalog is selecting from each and appending. *)
Theorem extend_get_from_arch (self other : Updates) (arch : string) :
  application_name (extend self other) = application_name self
  /\ application_version (extend self other) = application_version self
  /\ get (extend self other) = get self ++ get other
  /\ get_from_arch (extend self other) arch
     = get_from_arch self arch ++ get_from_arch other arch.
Proof.
  repeat split.
  rewrite !get_from_arch_filter; cbn [extend package_updates].
  apply filter_app.
Qed.

(** ** The records of a parsed document *)

Lemma iter_inside (name_ : string) (root : Element) :
  forall e, In e (iter name_ root) -> inside e root /\ tag e = name_.
Proof.
  induction root as [t x cs IH] using Element_children_ind.
  intros e; cbn [iter]; rewrite in_app_iff; intros [He | He].
  - destruct (String.eqb_spec t name_) as [<- | _]; [| destruct He].
    destruct He as [<- | []]; split; [constructor | reflexivity].
  - apply in_flat_map in He as (c & Hc & He).
    rewrite Forall_forall in IH.
    destruct (IH c Hc e He) as [Hin Htag]; split; [| exact Htag].
    now apply (inside_child e c (Elem t x cs)).
Qed.

Lemma inside_iter (name_ : string) :
  forall e root, inside e root -> tag e = name_ -> In e (iter name_ root).
Proof.
  intros e root Hin; induction Hin as [e | e c root Hc _ IH]; intros Htag.
  - destruct e as [t x cs]; cbn [iter tag] in *.
    rewrite Htag, String.eqb_refl; now left.
  - destruct root as [t x cs]; cbn [iter children] in *.
    apply in_or_app; right.
    apply in_flat_map; exists c; auto.
Qed.

Lemma _get_text_missing (item : option Element) :
  item = None \/ (exists e, item = Some e /\ text e = None) ->
  _get_text item = "".
Proof.
  intros [-> | (e & -> & He)]; [reflexivity |].
  unfold _get_text; now rewrite He.
Qed.

(** X4: the records of a parsed catalog are those of the [PackageUpdate]
    elements of the document, in document order: an element gives a record
    exactly when it is the root or lies anywhere below it and has that
    tag, however deep. *)
Theorem fromstring_records_of_all_depths (update_xml : Element) (u : Updates) :
  fromstring_root update_xml = Return u ->
  exists elements,
    package_updates u = map fromstring_entry elements
    /\ elements = iter "PackageUpdate" update_xml
    /\ forall e,
        In e elements <-> inside e update_xml /\ tag e = "PackageUpdate".
Proof.
  unfold fromstring_root.
  destruct (find "ApplicationName" update_xml) as [an |]; [| discriminate].
  destruct (find "ApplicationVersion" update_xml) as [av |]; [| discriminate].
  intros [= <-]; exists (iter "PackageUpdate" update_xml).
  split; [reflexivity | split; [reflexivity |]].
  intros e; split; [apply iter_inside |].
  intros [Hin Htag]; now apply inside_iter.
Qed.

Lemma fromstring_records_of_all_depths_witness :
  exists elements,
    package_updates
      (mkUpdates (Some "{AnyApplication}") (Some "1.0.0")
         [package "qt.outer" None;
          mkPackageUpdate "" "" "" "" "2.0" None None None false false;
          package "qt.grouped" None])
    = map fromstring_entry elements
    /\ elements = iter "PackageUpdate" nested_document
    /\ forall e,
        In e elements <-> inside e nested_document /\ tag e = "PackageUpdate".
Proof.
  apply (fromstring_records_of_all_depths nested_document).
  reflexivity.
Defined.

(** X5: the five text fields of a record are never [None]: each is the
    text of its child element, and the empty string when the element is
    missing or has no text. *)
Theorem fromstring_entry_text_fields (packageupdate : Element)
    (child : string) (field : PackageUpdate -> string) :
  In (child, field)
     [("Name", name); ("DisplayName", display_name);
      ("Description", description); ("ReleaseDate", release_date);
      ("Version", version)] ->
  (find child packageupdate = None
   \/ (exists e, find child packageupdate = Some e /\ text e = None) ->
   field (fromstring_entry packageupdate) = "")
  /\ (forall e t,
        find child packageupdate = Some e -> text e = Some t ->
        field (fromstring_entry packageupdate) = t).
Proof.
  intros Hin.
  assert (Hfield : field (fromstring_entry packageupdate)
                   = _get_text (find child packageupdate)).
  { cbn [In] in Hin.
    destruct Hin as [H | [H | [H | [H | [H | []]]]]]; injection H as <- <-;
      reflexivity. }
  rewrite Hfield; split; [apply _get_text_missing |].
  intros e t -> He; unfold _get_text; now rewrite He.
Qed.

Lemma fromstring_entry_text_fields_witness :
  name (fromstring_entry inner_package) = ""
  /\ version (fromstring_entry inner_package) = "2.0".
Proof.
  split.
  - apply (proj1 (fromstring_entry_text_fields inner_package "Name" name
                    (or_introl eq_refl))).
    left; reflexivity.
  - apply (proj2 (fromstring_entry_text_fields inner_package "Version" version
                    (or_intror (or_intror (or_intror (or_intror
                       (or_introl eq_refl)))))) (leaf "Version" "2.0") "2.0");
      reflexivity.
Defined.

(** ** Keys of a dictionary *)

Section DictKeys.

Context {V : Type}.
Implicit Types (d : dict V) (k : string) (v : V).

Lemma dict_mem_keys d k : dict_mem d k = true <-> In k (map fst d).
Proof.
  unfold dict_mem; induction d as [| [k0 v0] d IH]; cbn [dict_get map fst In].
  - split; [discriminate | tauto].
  - destruct (String.eqb_spec k0 k) as [-> | Hne]; [tauto |].
    rewrite IH; split; [now right | intros [H | H]; [contradiction | exact H]].
Qed.

Lemma dict_set_fresh d k v :
  dict_mem d k = false -> dict_set d k v = d ++ [(k, v)].
Proof.
  unfold dict_mem; induction d as [| [k0 v0] d IH];
    cbn [dict_get dict_set app]; [reflexivity |].
  destruct (String.eqb k0 k); [discriminate |].
  intros H; now rewrite (IH H).
Qed.

Lemma dict_set_keys d k v :
  map fst (dict_set d k v) =
    if dict_mem d k then map fst d else map fst d ++ [k].
Proof.
  unfold dict_mem; induction d as [| [k0 v0] d IH];
    cbn [dict_get dict_set map fst app]; [reflexivity |].
  destruct (String.eqb_spec k0 k) as [-> | Hne]; cbn [map fst];
    [reflexivity |].
  rewrite IH; now destruct (dict_get d k).
Qed.

Lemma dict_remove_keys d k :
  map fst (dict_remove d k)
  = filter (fun k' => negb (String.eqb k' k)) (map fst d).
Proof.
  unfold dict_remove; induction d as [| [k0 v0] d IH];
    cbn [filter map fst]; [reflexivity |].
  destruct (String.eqb k0 k); cbn [negb map fst]; now rewrite IH.
Qed.

Lemma dict_remove_absent d k : dict_mem d k = false -> dict_remove d k = d.
Proof.
  unfold dict_mem, dict_remove; induction d as [| [k0 v0] d IH];
    cbn [dict_get filter fst]; [reflexivity |].
  destruct (String.eqb k0 k); [discriminate |].
  intros H; cbn [negb]; now rewrite (IH H).
Qed.

Lemma dict_remove_app d d' k :
  dict_remove (d ++ d') k = dict_remove d k ++ dict_remove d' k.
Proof. apply filter_app. Qed.

Lemma dict_mem_app d d' k :
  dict_mem (d ++ d') k = dict_mem d k || dict_mem d' k.
Proof.
  unfold dict_mem; induction d as [| [k0 v0] d IH]; cbn [app dict_get].
  - now destruct (dict_get d' k).
  - now destruct (String.eqb k0 k).
Qed.

Lemma dict_set_wf d k v : dict_wf d -> dict_wf (dict_set d k v).
Proof.
  unfold dict_wf; rewrite dict_set_keys; intros Hwf.
  destruct (dict_mem d k) eqn:Hk; [exact Hwf |].
  apply NoDup_app; [exact Hwf | repeat constructor; intros [] |].
  intros x Hx [<- | []]; apply dict_mem_keys in Hx; congruence.
Qed.

Lemma dict_remove_wf d k : dict_wf d -> dict_wf (dict_remove d k).
Proof. unfold dict_wf; rewrite dict_remove_keys; apply NoDup_filter. Qed.

Lemma dict_remove_length d k :
  dict_wf d -> dict_mem d k = true ->
  S (List.length (dict_remove d k)) = List.length d.
Proof.
  unfold dict_wf, dict_remove; induction d as [| [k0 v0] d IH];
    cbn [map fst filter List.length]; intros Hwf Hk.
  - discriminate.
  - inversion Hwf as [| ? ? Hk0 Hd]; subst.
    unfold dict_mem in Hk; cbn [dict_get] in Hk.
    destruct (String.eqb_spec k0 k) as [-> | Hne]; cbn [negb List.length].
    + f_equal; fold (dict_remove d k); rewrite dict_remove_absent;
        [reflexivity |].
      destruct (dict_mem d k) eqn:Hm; [| reflexivity].
      apply dict_mem_keys in Hm; contradiction.
    + f_equal; apply IH; assumption.
Qed.

End DictKeys.



(** ** The index after construction and after [add] *)

Lemma init_has_package_iff (initial_map : dict (list string)) (p : string) :
  has_package (init initial_map) p = true <->
  exists module_name package_names,
    In (module_name, package_names) initial_map /\ In p package_names.
Proof.
  unfold has_package, dict_mem, init; cbn [_packages_to_modules].
  rewrite invert_get; split.
  - destruct (List.find _ (rev initial_map)) as [[m l] |] eqn:Hf;
      [| discriminate].
    intros _; apply find_some in Hf as [Hin Hp]; cbn [snd] in Hp.
    exists m, l; split; [now apply in_rev | now apply contains_In].
  - intros (m & l & Hin & Hp).
    destruct (List.find _ (rev initial_map)) as [kv |] eqn:Hf;
      [reflexivity |].
    apply in_rev in Hin.
    pose proof (find_none _ _ Hf (m, l) Hin) as Hno; cbn [snd] in Hno.
    apply contains_In in Hp; congruence.
Qed.

(** X6: the index built from a map holds exactly the identifiers that
    some module of the map lists, whatever the map looks like. *)
Theorem init_has_package (initial_map : dict (list string)) (p : string) :
  _modules_to_packages (init initial_map) = initial_map
  /\ (has_package (init initial_map) p = true <->
      exists module_name package_names,
        In (module_name, package_names) initial_map /\ In p package_names).
Proof. split; [reflexivity | apply init_has_package_iff]. Qed.

Lemma dict_mem_pairs (module_name : string) (names : list string)
    (q : string) :
  dict_mem (map (fun n => (n, module_name)) names) q = true <-> In q names.
Proof.
  rewrite dict_mem_keys, map_map; cbn [fst]; now rewrite map_id.
Qed.

Lemma add_loop_nodup (module_name : string) (package_names : list string) :
  forall p2m p2m' u,
    add_loop module_name package_names p2m = (p2m', Return u) ->
    NoDup package_names.
Proof.
  induction package_names as [| p rest IH]; intros p2m p2m' u;
    cbn [add_loop]; [constructor |].
  destruct (dict_mem p2m p) eqn:Hp; [discriminate |].
  intros H; constructor; [| exact (IH _ _ _ H)].
  intros Hin.
  pose proof (add_loop_collision module_name rest
                (dict_set p2m p module_name) p Hin) as Hc.
  rewrite dict_mem_set, String.eqb_refl in Hc.
  rewrite H in Hc; discriminate (Hc eq_refl).
Qed.

Lemma add_loop_succeeds (module_name : string) (package_names : list string) :
  NoDup package_names ->
  forall p2m,
    (forall q, In q package_names -> dict_mem p2m q = false) ->
    add_loop module_name package_names p2m
    = (p2m ++ map (fun n => (n, module_name)) package_names, Return tt).
Proof.
  induction 1 as [| p rest Hp Hnd IH]; intros p2m Hfresh; cbn [add_loop map].
  - now rewrite app_nil_r.
  - rewrite (Hfresh p (or_introl eq_refl)).
    rewrite (dict_set_fresh _ _ _ (Hfresh p (or_introl eq_refl))).
    rewrite IH; [now rewrite <- app_assoc |].
    intros q Hq; rewrite dict_mem_app, (Hfresh q (or_intror Hq)).
    cbn [orb]; unfold dict_mem; cbn [dict_get].
    destruct (String.eqb_spec p q); [congruence | reflexivity].
Qed.

Lemma add_loop_return_append (module_name : string)
    (package_names : list string) (p2m p2m' : dict string) (u : unit) :
  add_loop module_name package_names p2m = (p2m', Return u) ->
  p2m' = p2m ++ map (fun n => (n, module_name)) package_names.
Proof.
  intros H.
  pose proof (add_loop_succeeds module_name package_names
                (add_loop_nodup _ _ _ _ _ H) p2m
                (fun q Hq => add_loop_fresh _ _ _ _ _ q H Hq)) as Hs.
  rewrite H in Hs; now injection Hs.
Qed.

Lemma add_snd_return (self : ModuleToPackage) (module_name : string)
    (package_names : list string) :
  snd (add self module_name package_names) = Return tt ->
  exists self', add self module_name package_names = (self', Return tt).
Proof.
  destruct (add self module_name package_names) as [self' r]; cbn [snd].
  intros ->; now exists self'.
Qed.

(** X7: [add] returns exactly when no candidate is listed twice and none
    is held by the index yet; in every other case it raises. *)
Theorem add_returns_iff (self : ModuleToPackage) (module_name : string)
    (package_names : list string) :
  snd (add self module_name package_names) = Return tt <->
  NoDup package_names
  /\ forall p, In p package_names -> has_package self p = false.
Proof.
  rewrite add_snd; split.
  - destruct (add_loop module_name package_names (_packages_to_modules self))
      as [p2m r] eqn:Hloop; cbn [snd]; intros ->; split.
    + exact (add_loop_nodup _ _ _ _ _ Hloop).
    + intros p Hp; exact (add_loop_fresh _ _ _ _ _ p Hloop Hp).
  - intros [Hnd Hfresh]; now rewrite (add_loop_succeeds _ _ Hnd _ Hfresh).
Qed.

(** X8: whether it returns or raises, [add] leaves the modules in their
    order, with the module added to put last when it is new; so the length
    grows by one for a new module and stays for a known one. *)
Theorem add_get_modules (self : ModuleToPackage) (module_name : string)
    (package_names : list string) :
  get_modules (fst (add self module_name package_names)) =
    (if dict_mem (_modules_to_packages self) module_name
     then get_modules self
     else get_modules self ++ [module_name])
  /\ len (fst (add self module_name package_names)) =
      (if dict_mem (_modules_to_packages self) module_name
       then len self
       else S (len self)).
Proof.
  unfold add.
  destruct (add_loop module_name package_names (_packages_to_modules self))
    as [p2m r]; cbn [fst].
  assert (Hkeys : get_modules
                    (mkModuleToPackage
                       (dict_set (_modules_to_packages self) module_name
                          (dict_get_default (_modules_to_packages self)
                             module_name [] ++ package_names)) p2m)
                  = if dict_mem (_modules_to_packages self) module_name
                    then get_modules self
                    else get_modules self ++ [module_name]).
  { unfold get_modules; cbn [_modules_to_packages]; apply dict_set_keys. }
  split; [exact Hkeys |].
  apply (f_equal (@List.length string)) in Hkeys.
  unfold get_modules in Hkeys; rewrite length_map in Hkeys.
  unfold len; rewrite Hkeys.
  destruct (dict_mem (_modules_to_packages self) module_name);
    [apply length_map |].
  rewrite length_app, length_map; cbn; lia.
Qed.

Lemma add_returns_iff_witness :
  snd (add (init []) "qtcharts" [charts_id]) = Return tt.
Proof.
  apply (proj2 (add_returns_iff (init []) "qtcharts" [charts_id])); split.
  - constructor; [intros [] | constructor].
  - intros p _; reflexivity.
Defined.

(** ** [add] followed by [remove_module_for_package] *)

Lemma dict_get_app {V : Type} (d d' : dict V) (k : string) :
  dict_get (d ++ d') k =
    match dict_get d k with
    | Some v => Some v
    | None => dict_get d' k
    end.
Proof.
  induction d as [| [k0 v0] d IH]; cbn [app dict_get]; [reflexivity |].
  now destruct (String.eqb k0 k).
Qed.

Lemma dict_mem_false_get {V : Type} (d : dict V) (k : string) :
  dict_mem d k = false -> dict_get d k = None.
Proof. unfold dict_mem; now destruct (dict_get d k). Qed.

Lemma remove_loop_appended (module_name : string)
    (package_names : list string) :
  NoDup package_names ->
  forall p2m,
    (forall q, In q package_names -> dict_mem p2m q = false) ->
    remove_loop package_names
      (p2m ++ map (fun n => (n, module_name)) package_names)
    = (p2m, Return tt).
Proof.
  induction 1 as [| p rest Hp Hnd IH]; intros p2m Hfresh;
    cbn [remove_loop map].
  - now rewrite app_nil_r.
  - pose proof (Hfresh p (or_introl eq_refl)) as Hfp.
    unfold dict_pop; rewrite dict_get_app, (dict_mem_false_get _ _ Hfp).
    cbn [dict_get]; rewrite String.eqb_refl.
    rewrite dict_remove_app, (dict_remove_absent _ _ Hfp).
    unfold dict_remove at 1; cbn [filter fst]; rewrite String.eqb_refl.
    cbn [negb]; fold (dict_remove (map (fun n => (n, module_name)) rest) p).
    rewrite dict_remove_absent.
    + apply IH; intros q Hq; apply Hfresh; now right.
    + destruct (dict_mem (map (fun n => (n, module_name)) rest) p) eqn:Hm;
        [| reflexivity].
      apply dict_mem_pairs in Hm; contradiction.
Qed.

Lemma dict_get_pairs (module_name : string) (names : list string)
    (p : string) :
  In p names ->
  dict_get (map (fun n => (n, module_name)) names) p = Some module_name.
Proof.
  induction names as [| n ns IH]; cbn [In map dict_get]; [tauto |].
  destruct (String.eqb_spec n p) as [_ | Hne]; [reflexivity |].
  intros [H | H]; [contradiction | auto].
Qed.

(** X9: adding a module that the forward map does not have and then
    removing the module for any one of the candidates just added gives
    back the index as it was, in both maps. *)
Theorem add_then_remove_restores (self self1 : ModuleToPackage)
    (module_name : string) (package_names : list string) (p : string) :
  dict_mem (_modules_to_packages self) module_name = false ->
  In p package_names ->
  add self module_name package_names = (self1, Return tt) ->
  remove_module_for_package self1 p = (self, Return tt).
Proof.
  intros Hnew Hp Hadd; unfold add in Hadd.
  destruct (add_loop module_name package_names (_packages_to_modules self))
    as [p2m r] eqn:Hloop.
  injection Hadd as <- ->.
  pose proof (add_loop_nodup _ _ _ _ _ Hloop) as Hnd.
  assert (Hfresh : forall q, In q package_names ->
                     dict_mem (_packages_to_modules self) q = false)
    by (intros q Hq; exact (add_loop_fresh _ _ _ _ _ q Hloop Hq)).
  rewrite (add_loop_return_append _ _ _ _ _ Hloop).
  unfold dict_get_default; rewrite (dict_mem_false_get _ _ Hnew).
  cbn [app]; rewrite (dict_set_fresh _ _ _ Hnew).
  unfold remove_module_for_package, dict_item;
    cbn [_packages_to_modules _modules_to_packages].
  rewrite dict_get_app, (dict_mem_false_get _ _ (Hfresh p Hp)).
  rewrite (dict_get_pairs _ _ _ Hp).
  rewrite dict_get_app, (dict_mem_false_get _ _ Hnew).
  cbn [dict_get]; rewrite String.eqb_refl.
  rewrite (remove_loop_appended module_name _ Hnd _ Hfresh).
  rewrite dict_remove_app, (dict_remove_absent _ _ Hnew).
  unfold dict_remove; cbn [filter fst]; rewrite String.eqb_refl.
  cbn [negb]; rewrite app_nil_r; now destruct self.
Qed.

Lemma add_then_remove_restores_witness :
  remove_module_for_package charts_index charts_id = (init [], Return tt).
Proof.
  apply (add_then_remove_restores (init []) charts_index "qtcharts"
           [charts_id] charts_id).
  - reflexivity.
  - left; reflexivity.
  - reflexivity.
Defined.

(** ** What a failed call leaves behind *)

Lemma add_loop_raise (module_name : string) (package_names : list string) :
  forall p2m p2m' e,
    add_loop module_name package_names p2m = (p2m', Raise e) ->
    e = AssertionError collision_msg
    /\ exists done p rest,
        package_names = done ++ p :: rest
        /\ p2m' = p2m ++ map (fun n => (n, module_name)) done
        /\ (dict_mem p2m p = true \/ In p done)
        /\ forall q, In q done -> dict_mem p2m q = false.
Proof.
  induction package_names as [| p0 rest0 IH]; intros p2m p2m' e;
    cbn [add_loop]; [discriminate |].
  destruct (dict_mem p2m p0) eqn:Hp0.
  - intros [= <- <-]; split; [reflexivity |].
    exists [], p0, rest0; cbn [app map]; rewrite app_nil_r.
    repeat split; [now left | intros q []].
  - rewrite (dict_set_fresh _ _ _ Hp0); intros H.
    destruct (IH _ _ _ H) as (He & done & p & rest & -> & -> & Hp & Hdone).
    split; [exact He |].
    exists (p0 :: done), p, rest; cbn [app map]; rewrite <- app_assoc.
    repeat split.
    + rewrite dict_mem_app in Hp; unfold dict_mem at 2 in Hp.
      cbn [dict_get] in Hp.
      destruct Hp as [Hp | Hp]; [| right; now right].
      apply orb_true_iff in Hp as [Hp | Hp]; [now left |].
      destruct (String.eqb_spec p0 p) as [-> | _]; [| discriminate].
      right; now left.
    + intros q [<- | Hq]; [exact Hp0 |].
      specialize (Hdone q Hq); rewrite dict_mem_app in Hdone.
      now apply orb_false_elim in Hdone.
Qed.

(** X10: an [add] that raises has raised the collision assertion, at a
    candidate that the index held or that stands earlier in the list; by
    then the forward map has the whole list appended to the entry of the
    module, and the reverse map has gained the candidates before that one
    and lost nothing. *)
Theorem add_failure_state (self self' : ModuleToPackage)
    (module_name : string) (package_names : list string) (e : exn) :
  add self module_name package_names = (self', Raise e) ->
  e = AssertionError collision_msg
  /\ dict_get (_modules_to_packages self') module_name
     = Some (dict_get_default (_modules_to_packages self) module_name []
               ++ package_names)
  /\ exists done p rest,
      package_names = done ++ p :: rest
      /\ (has_package self p = true \/ In p done)
      /\ forall q,
          has_package self' q = true <->
          has_package self q = true \/ In q done.
Proof.
  unfold add.
  destruct (add_loop module_name package_names (_packages_to_modules self))
    as [p2m r] eqn:Hloop.
  intros [= <- ->].
  destruct (add_loop_raise _ _ _ _ _ Hloop)
    as (He & done & p & rest & Hnames & Hp2m & Hp & _).
  split; [exact He | split].
  - cbn [_modules_to_packages]; rewrite dict_get_set.
    now rewrite String.eqb_refl.
  - exists done, p, rest; split; [exact Hnames | split; [exact Hp |]].
    intros q; unfold has_package; cbn [_packages_to_modules].
    rewrite Hp2m, dict_mem_app, orb_true_iff, dict_mem_pairs; reflexivity.
Qed.

Lemma add_failure_state_witness :
  AssertionError collision_msg = AssertionError collision_msg
  /\ dict_get
       (_modules_to_packages (fst (add charts_index "qtsvg" ["qt.svg"; charts_id])))
       "qtsvg"
     = Some (dict_get_default (_modules_to_packages charts_index) "qtsvg" []
               ++ ["qt.svg"; charts_id])
  /\ exists done p rest,
      ["qt.svg"; charts_id] = done ++ p :: rest
      /\ (has_package charts_index p = true \/ In p done)
      /\ forall q,
          has_package (fst (add charts_index "qtsvg" ["qt.svg"; charts_id])) q
          = true <->
          has_package charts_index q = true \/ In q done.
Proof.
  apply (add_failure_state charts_index
           (fst (add charts_index "qtsvg" ["qt.svg"; charts_id]))
           "qtsvg" ["qt.svg"; charts_id]).
  reflexivity.
Defined.

Lemma remove_loop_subset (package_names : list string) :
  forall p2m p2m' r,
    remove_loop package_names p2m = (p2m', r) ->
    forall q, dict_mem p2m' q = true -> dict_mem p2m q = true.
Proof.
  induction package_names as [| p rest IH]; intros p2m p2m' r;
    cbn [remove_loop].
  - now intros [= <- _].
  - unfold dict_pop; destruct (dict_get p2m p).
    + intros H q Hq; specialize (IH _ _ _ H q Hq).
      rewrite dict_mem_remove in IH; now apply andb_true_iff in IH.
    + now intros [= <- _].
Qed.

(** X11: a [remove_module_for_package] that raises has raised [KeyError];
    it leaves the forward map as it was and has added nothing to the
    reverse map. *)
Theorem remove_failure_state (self self' : ModuleToPackage)
    (package_name : string) (e : exn) :
  remove_module_for_package self package_name = (self', Raise e) ->
  (exists key, e = KeyError key)
  /\ _modules_to_packages self' = _modules_to_packages self
  /\ forall q, has_package self' q = true -> has_package self q = true.
Proof.
  unfold remove_module_for_package, dict_item.
  destruct (dict_get (_packages_to_modules self) package_name)
    as [module_name |].
  - destruct (dict_get (_modules_to_packages self) module_name)
      as [package_names |].
    + destruct (remove_loop package_names (_packages_to_modules self))
        as [p2m [u | e']] eqn:Hloop; [discriminate |].
      intros [= <- <-]; split; [| split; [reflexivity |]].
      * exact (remove_loop_raise _ _ _ _ Hloop).
      * exact (remove_loop_subset _ _ _ _ Hloop).
    + intros [= <- <-]; split; [now eexists | split; [reflexivity | auto]].
  - intros [= <- <-]; split; [now eexists | split; [reflexivity | auto]].
Qed.

Lemma remove_failure_state_witness :
  (exists key, KeyError "qt.charts" = KeyError key)
  /\ _modules_to_packages
       (fst (remove_module_for_package (init repeated_map) "qt.charts.arch"))
     = _modules_to_packages (init repeated_map)
  /\ forall q,
      has_package
        (fst (remove_module_for_package (init repeated_map) "qt.charts.arch"))
        q = true ->
      has_package (init repeated_map) q = true.
Proof.
  apply (remove_failure_state (init repeated_map)
           (fst (remove_module_for_package (init repeated_map)
                   "qt.charts.arch"))
           "qt.charts.arch").
  reflexivity.
Defined.

(** ** The index kept in order *)

Lemma init_index_ok (initial_map : dict (list string)) :
  dict_wf initial_map -> no_collision initial_map ->
  (forall module_name package_names,
      In (module_name, package_names) initial_map -> NoDup package_names) ->
  index_ok (init initial_map).
Proof.
  intros Hwf Hnc Hnd; split; [exact Hwf | split].
  - now apply init_exact_inverse.
  - intros m l Hget; apply (Hnd m), dict_get_in, Hget.
Qed.

Lemma add_index_ok (self self' : ModuleToPackage) (module_name : string)
    (package_names : list string) :
  index_ok self ->
  add self module_name package_names = (self', Return tt) ->
  index_ok self'.
Proof.
  intros (Hwf & Hinv & Hnd) Hadd.
  destruct (add_return _ _ _ _ _ Hadd) as [Hfwd _].
  assert (Hret : snd (add self module_name package_names) = Return tt)
    by now rewrite Hadd.
  rewrite add_snd in Hret.
  destruct (add_loop module_name package_names (_packages_to_modules self))
    as [p2m r] eqn:Hloop; cbn [snd] in Hret; subst r.
  split; [| split].
  - rewrite Hfwd; now apply dict_set_wf.
  - exact (add_exact_inverse _ _ _ _ Hinv Hadd).
  - intros m l; rewrite Hfwd, dict_get_set.
    destruct (String.eqb_spec module_name m) as [<- | _]; [| apply Hnd].
    intros [= <-]; unfold dict_get_default.
    apply NoDup_app.
    + destruct (dict_get (_modules_to_packages self) module_name) as [old |]
        eqn:Hold; [exact (Hnd _ _ Hold) | constructor].
    + exact (add_loop_nodup _ _ _ _ _ Hloop).
    + intros q Hq Hq'.
      destruct (dict_get (_modules_to_packages self) module_name) as [old |]
        eqn:Hold; [| destruct Hq].
      assert (Hheld : dict_get (_packages_to_modules self) q
                      = Some module_name)
        by (apply Hinv; now exists old).
      pose proof (add_loop_fresh _ _ _ _ _ q Hloop Hq') as Hf.
      unfold dict_mem in Hf; now rewrite Hheld in Hf.
Qed.

Lemma remove_index_ok (self self' : ModuleToPackage) (package_name : string) :
  index_ok self ->
  remove_module_for_package self package_name = (self', Return tt) ->
  index_ok self'.
Proof.
  intros (Hwf & Hinv & Hnd) Hrem.
  destruct (remove_return _ _ _ _ Hrem) as (m & l & _ & _ & Hfwd & _).
  split; [| split].
  - rewrite Hfwd; now apply dict_remove_wf.
  - exact (remove_exact_inverse _ _ _ Hinv Hrem).
  - intros m' l'; rewrite Hfwd, dict_get_remove.
    destruct (String.eqb m m'); [discriminate | apply Hnd].
Qed.

(** X12: an index built from a map with no module twice, no identifier
    under two modules and none twice in a list is in order, and every
    [add] and [remove_module_for_package] that returns leaves it in order:
    no module twice in the forward map, the reverse map its exact
    inverse, no identifier twice in a candidate list. *)
Theorem index_ok_maintained :
  (forall initial_map,
      dict_wf initial_map -> no_collision initial_map ->
      (forall module_name package_names,
          In (module_name, package_names) initial_map ->
          NoDup package_names) ->
      index_ok (init initial_map))
  /\ (forall self self' module_name package_names,
        index_ok self ->
        add self module_name package_names = (self', Return tt) ->
        index_ok self')
  /\ (forall self self' package_name,
        index_ok self ->
        remove_module_for_package self package_name = (self', Return tt) ->
        index_ok self').
Proof.
  split; [exact init_index_ok |].
  split; [intros; eapply add_index_ok; eassumption |].
  intros; eapply remove_index_ok; eassumption.
Qed.

Lemma disjoint_map_ok : index_ok (init disjoint_map).
Proof.
  apply init_index_ok.
  - repeat constructor; cbn; intuition discriminate.
  - intros m1 l1 m2 l2 p H1 H2 Hp1 Hp2; cbn in H1, H2.
    destruct H1 as [[= <- <-] | [[= <- <-] | []]];
      destruct H2 as [[= <- <-] | [[= <- <-] | []]];
      try reflexivity; cbn in Hp1, Hp2;
      intuition (subst; discriminate).
  - intros m l H; cbn in H.
    destruct H as [[= <- <-] | [[= <- <-] | []]];
      repeat constructor; cbn; intuition discriminate.
Qed.

Lemma index_ok_maintained_witness :
  index_ok (init disjoint_map)
  /\ index_ok (fst (add (init disjoint_map) "qtsvg" ["qt.svg.arch"]))
  /\ index_ok (fst (remove_module_for_package (init disjoint_map) "qt.svg")).
Proof.
  assert (Hok : index_ok (init disjoint_map)).
  { apply (proj1 index_ok_maintained disjoint_map).
    - repeat constructor; cbn; intuition discriminate.
    - intros m1 l1 m2 l2 p H1 H2 Hp1 Hp2; cbn in H1, H2.
      destruct H1 as [[= <- <-] | [[= <- <-] | []]];
        destruct H2 as [[= <- <-] | [[= <- <-] | []]];
        try reflexivity; cbn in Hp1, Hp2;
        intuition (subst; discriminate).
    - intros m l H; cbn in H.
      destruct H as [[= <- <-] | [[= <- <-] | []]];
        repeat constructor; cbn; intuition discriminate. }
  split; [exact Hok | split].
  - apply (proj1 (proj2 index_ok_maintained) (init disjoint_map) _
             "qtsvg" ["qt.svg.arch"] Hok).
    reflexivity.
  - apply (proj2 (proj2 index_ok_maintained) (init disjoint_map) _
             "qt.svg" Hok).
    reflexivity.
Defined.

(** X13: on an index in order, removing the module for an identifier the
    index holds always returns: the owning module and all its candidates
    are gone, every other identifier is held as before, the index is one
    module shorter and still in order. *)
Theorem remove_held_package_returns (self : ModuleToPackage)
    (package_name : string) :
  index_ok self ->
  has_package self package_name = true ->
  exists self' module_name package_names,
    remove_module_for_package self package_name = (self', Return tt)
    /\ dict_get (_modules_to_packages self) module_name = Some package_names
    /\ In package_name package_names
    /\ (forall q,
          has_package self' q = true <->
          has_package self q = true /\ ~ In q package_names)
    /\ get_modules self'
       = filter (fun m => negb (String.eqb m module_name)) (get_modules self)
    /\ S (len self') = len self
    /\ index_ok self'.
Proof.
  intros Hok Hheld; pose proof Hok as (Hwf & Hinv & Hnd).
  unfold has_package, dict_mem in Hheld.
  destruct (dict_get (_packages_to_modules self) package_name)
    as [m |] eqn:Hp; [clear Hheld | discriminate].
  destruct (proj1 (Hinv package_name m) Hp) as (l & Hm & Hin).
  assert (Hall : forall q, In q l ->
                   dict_mem (_packages_to_modules self) q = true).
  { intros q Hq; unfold dict_mem.
    assert (H : dict_get (_packages_to_modules self) q = Some m)
      by (apply Hinv; now exists l).
    now rewrite H. }
  destruct (remove_loop_succeeds l (Hnd _ _ Hm) _ Hall) as [p2m Hloop].
  assert (Hrem : remove_module_for_package self package_name
                 = (mkModuleToPackage
                      (dict_remove (_modules_to_packages self) m) p2m,
                    Return tt)).
  { unfold remove_module_for_package, dict_item; now rewrite Hp, Hm, Hloop. }
  eexists; exists m, l.
  split; [exact Hrem | split; [exact Hm | split; [exact Hin |]]].
  split; [| split; [| split]].
  - intros q; unfold has_package, dict_mem; cbn [_packages_to_modules].
    rewrite (remove_loop_return _ _ _ _ Hloop q), <- contains_In.
    destruct (Py.contains l q).
    + split; [discriminate | intros [_ H]; now elim H].
    + split; [intros H; split; [exact H | discriminate] | tauto].
  - unfold get_modules; cbn [_modules_to_packages]; apply dict_remove_keys.
  - unfold len; cbn [_modules_to_packages]; apply dict_remove_length;
      [exact Hwf |].
    unfold dict_mem; now rewrite Hm.
  - exact (remove_index_ok _ _ _ Hok Hrem).
Qed.

Lemma remove_held_package_returns_witness :
  exists self' module_name package_names,
    remove_module_for_package (init disjoint_map) "qt.charts.arch"
      = (self', Return tt)
    /\ dict_get (_modules_to_packages (init disjoint_map)) module_name
       = Some package_names
    /\ In "qt.charts.arch" package_names
    /\ (forall q,
          has_package self' q = true <->
          has_package (init disjoint_map) q = true /\ ~ In q package_names)
    /\ get_modules self'
       = filter (fun m => negb (String.eqb m module_name))
           (get_modules (init disjoint_map))
    /\ S (len self') = len (init disjoint_map)
    /\ index_ok self'.
Proof.
  apply (remove_held_package_returns (init disjoint_map) "qt.charts.arch").
  - exact disjoint_map_ok.
  - reflexivity.
Defined.

(** ** What [dfs] collects *)

Lemma Forall2_compose {A B C : Type} (R : A -> B -> Prop) (S : B -> C -> Prop)
    (T : A -> C -> Prop) (la : list A) :
  (forall a b c, R a b -> S b c -> T a c) ->
  forall lb lc, Forall2 R la lb -> Forall2 S lb lc -> Forall2 T la lc.
Proof.
  intros HT; induction la as [| a la IH]; intros lb lc HR HS;
    inversion HR; subst; inversion HS; subst; constructor; eauto.
Qed.

Lemma Forall2_In_l {A B : Type} (R : A -> B -> Prop) (la : list A)
    (lb : list B) (a : A) :
  Forall2 R la lb -> In a la -> exists b, In b lb /\ R a b.
Proof.
  induction 1 as [| a0 b0 la lb HR _ IH]; cbn [In]; [tauto |].
  intros [<- | Hin]; [exists b0; auto |].
  destruct (IH Hin) as (b & Hb & Hab); exists b; auto.
Qed.

Lemma Forall2_In_r {A B : Type} (R : A -> B -> Prop) (la : list A)
    (lb : list B) (b : B) :
  Forall2 R la lb -> In b lb -> exists a, In a la /\ R a b.
Proof.
  induction 1 as [| a0 b0 la lb HR _ IH]; cbn [In]; [tauto |].
  intros [<- | Hin]; [exists a0; auto |].
  destruct (IH Hin) as (a & Ha & Hab); exists a; auto.
Qed.

Lemma Forall2_same {A : Type} (R : A -> A -> Prop) (l : list A) :
  (forall a, R a a) -> Forall2 R l l.
Proof. intros HR; induction l; constructor; auto. Qed.

Lemma iterate_incl (q : pyseq) :
  incl (pending_items (snd (iterate q))) (pending_items q).
Proof. destruct q; cbn; [apply incl_refl | intros x []]. Qed.

(** One pass in detail: which records change, where the new stack
    entries come from, and where the items of the records scanned go. *)
Lemma dfs_scan_items (next : string) (entries : list PackageUpdate) :
  forall filo visited entries' filo' visited',
    dfs_scan next entries filo visited
      = (entries', Return (filo', visited')) ->
    Forall2
      (fun e e' =>
         name e' = name e
         /\ incl (dependency_items e') (dependency_items e)
         /\ (name e <> next -> e' = e))
      entries entries'
    /\ (forall d,
          In d filo' ->
          In d filo
          \/ exists e,
              In e entries /\ name e = next /\ In d (dependency_items e))
    /\ (forall e d,
          In e entries -> name e = next -> In d (dependency_items e) ->
          In d filo' \/ Py.contains visited' d = true).
Proof.
  induction entries as [| entry rest IH];
    intros filo visited entries' filo' visited'; cbn [dfs_scan].
  - intros [= <- <- <-]; split; [constructor | split].
    + intros d Hd; now left.
    + intros e d [].
  - destruct (String.eqb_spec (name entry) next) as [Hname | Hname].
    + destruct (dependencies entry) as [q |] eqn:Hq; [| discriminate].
      destruct (iterate q) as [items q'] eqn:Hit.
      destruct (dfs_scan next rest
                  (push_unvisited (visited ++ [next]) items filo)
                  (visited ++ [next])) as [rest' r] eqn:Hscan.
      intros [= <- ->].
      destruct (IH _ _ _ _ _ Hscan) as (HF & Hfrom & Hto).
      destruct (dfs_scan_return _ _ _ _ _ _ _ Hscan)
        as (_ & _ & Hvis & pushed & Hfilo & _).
      assert (Hitems : items = dependency_items entry).
      { unfold dependency_items; rewrite Hq, <- iterate_items, Hit.
        reflexivity. }
      assert (Hq' : incl (pending_items q') (pending_items q)).
      { pose proof (iterate_incl q) as H; now rewrite Hit in H. }
      rewrite push_unvisited_filter in Hfilo, Hfrom.
      split; [| split].
      * constructor; [| exact HF].
        split; [reflexivity | split; [| congruence]].
        unfold dependency_items; cbn [dependencies]; now rewrite Hq.
      * intros d Hd; destruct (Hfrom d Hd) as [Hd' | (e & He & Hn & Hde)].
        -- apply in_app_or in Hd' as [Hd' | Hd']; [| now left].
           right; exists entry; split; [now left | split; [exact Hname |]].
           apply in_rev, filter_In in Hd' as [Hd' _]; now rewrite <- Hitems.
        -- right; exists e; split; [now right | auto].
      * intros e d [<- | He] Hn Hd; [| exact (Hto e d He Hn Hd)].
        rewrite <- Hitems in Hd.
        destruct (Py.contains (visited ++ [next]) d) eqn:Hc.
        -- right; now rewrite Hvis, Hc.
        -- left; rewrite Hfilo; apply in_or_app; right.
           apply in_or_app; left; apply in_rev; rewrite rev_involutive.
           apply filter_In; split; [exact Hd | now rewrite Hc].
    + destruct (dfs_scan next rest filo visited) as [rest' r] eqn:Hscan.
      intros [= <- ->].
      destruct (IH _ _ _ _ _ Hscan) as (HF & Hfrom & Hto).
      split; [| split].
      * constructor; [| exact HF].
        split; [reflexivity | split; [apply incl_refl | reflexivity]].
      * intros d Hd; destruct (Hfrom d Hd) as [Hd' | (e & He & Hn & Hde)];
          [now left |].
        right; exists e; split; [now right | auto].
      * intros e d [<- | He] Hn Hd; [contradiction |].
        exact (Hto e d He Hn Hd).
Qed.

Lemma dfs_invariant_start (entries0 : list PackageUpdate) (target : string) :
  dfs_invariant entries0 target entries0 [target] [] [].
Proof.
  unfold dfs_invariant; repeat split.
  - apply Forall2_same; intros e.
    split; [reflexivity | split; [apply incl_refl | reflexivity]].
  - discriminate.
  - intros x [[] | [<- | []]]; constructor.
  - intros e0 d _ [].
  - right; now left.
Qed.

(** One iteration that does not raise keeps [dfs_invariant]. *)
Lemma dfs_invariant_step (entries0 : list PackageUpdate) (target next : string)
    (entries entries' : list PackageUpdate)
    (filo packages visited filo' visited' : list string) :
  dfs_invariant entries0 target entries (next :: filo) packages visited ->
  dfs_scan next entries filo visited = (entries', Return (filo', visited')) ->
  dfs_invariant entries0 target entries' filo' (packages ++ [next]) visited'.
Proof.
  intros (HF & Hvisited & Hreach & Hclosed & Htarget) Hscan.
  destruct (dfs_scan_items _ _ _ _ _ _ _ Hscan) as (HS & Hfrom & Hto).
  destruct (dfs_scan_return _ _ _ _ _ _ _ Hscan)
    as (_ & _ & Hvis & pushed & Hfilo & _).
  assert (Hvisited' : forall x, Py.contains visited' x = true ->
                                In x (packages ++ [next])).
  { intros x; rewrite Hvis; intros H; apply in_or_app.
    apply orb_true_iff in H as [H | H]; [left; auto |].
    apply andb_true_iff in H as [_ H]; apply String.eqb_eq in H.
    right; now left. }
  assert (Hkeep : forall x, In x filo -> In x filo').
  { intros x Hx; rewrite Hfilo; apply in_or_app; now right. }
  unfold dfs_invariant; split; [| split; [exact Hvisited' | split;
    [| split]]].
  - refine (Forall2_compose _ _ _ _ _ _ _ HF HS).
    intros e0 e e1 (Hn & Hincl & Hsame) (Hn1 & Hincl1 & Hsame1).
    split; [congruence | split].
    + intros x Hx; auto.
    + intros Hnot.
      assert (Hne : name e <> next).
      { intros Heq; apply Hnot, in_or_app; right; left; congruence. }
      rewrite (Hsame1 Hne); apply Hsame.
      intros Hin; apply Hnot, in_or_app; now left.
  - intros x [Hx | Hx].
    + apply Hreach; apply in_app_or in Hx as [Hx | [<- | []]];
        [now left | right; now left].
    + destruct (Hfrom x Hx) as [Hx' | (e & He & Hn & Hd)].
      * apply Hreach; right; now right.
      * destruct (Forall2_In_r _ _ _ e HF He) as (e0 & He0 & Hn0 & Hincl & _).
        apply (reachable_step entries0 target next e0 x).
        -- apply Hreach; right; now left.
        -- exact He0.
        -- congruence.
        -- auto.
  - intros e0 d He0 Hin Hd.
    destruct (in_dec string_dec (name e0) packages) as [Hold | Hnew].
    + destruct (Hclosed e0 d He0 Hold Hd) as [H | [<- | H]].
      * left; apply in_or_app; now left.
      * left; apply in_or_app; right; now left.
      * right; auto.
    + apply in_app_or in Hin as [Hin | [Hin | []]]; [contradiction |].
      destruct (Forall2_In_l _ _ _ e0 HF He0) as (e & He & Hn & _ & Hsame).
      rewrite <- (Hsame Hnew) in Hd.
      destruct (Hto e d He (eq_trans Hn (eq_sym Hin)) Hd) as [H | H];
        [now right | left; auto].
  - destruct Htarget as [H | [<- | H]].
    + left; apply in_or_app; now left.
    + left; apply in_or_app; right; now left.
    + right; auto.
Qed.

Lemma dfs_loop_invariant (entries0 : list PackageUpdate) (target : string)
    (fuel : nat) :
  forall entries filo packages visited entries' result,
    dfs_invariant entries0 target entries filo packages visited ->
    dfs_loop fuel entries filo packages visited
      = (entries', Some (Return result)) ->
    dfs_invariant entries0 target entries' [] result [].
Proof.
  induction fuel as [| fuel IH];
    intros entries filo packages visited entries' result Hinv.
  - destruct filo; cbn [dfs_loop]; [| discriminate].
    intros [= <- <-]; destruct Hinv as (HF & _ & Hr & Hc & Ht).
    unfold dfs_invariant; repeat split; auto; discriminate.
  - destruct filo as [| next filo]; cbn [dfs_loop].
    + intros [= <- <-]; destruct Hinv as (HF & _ & Hr & Hc & Ht).
      unfold dfs_invariant; repeat split; auto; discriminate.
    + destruct (dfs_scan next entries filo visited)
        as [entries1 [[filo1 visited1] | e]] eqn:Hscan; [| discriminate].
      apply IH; exact (dfs_invariant_step _ _ _ _ _ _ _ _ _ _ Hinv Hscan).
Qed.

Lemma dfs_result_reachable (self : Updates) (target : string)
    (result : list string) :
  snd (dfs self target) = Some (Return result) ->
  forall x, In x result <-> reachable (package_updates self) target x.
Proof.
  rewrite dfs_unfold; cbn [snd].
  destruct (dfs_loop _ _ _ _ _) as [entries' r] eqn:Hloop.
  cbn [snd]; intros ->.
  destruct (dfs_loop_invariant _ _ _ _ _ _ _ _ _
              (dfs_invariant_start (package_updates self) target) Hloop)
    as (_ & _ & Hreach & Hclosed & Htarget).
  intros x; split; [intros Hx; apply Hreach; now left |].
  induction 1 as [| x entry d _ IH Hentry Hname Hd].
  - destruct Htarget as [H | []]; exact H.
  - subst x; destruct (Hclosed entry d Hentry IH Hd) as [H | []]; exact H.
Qed.

(** X14: the list [dfs] returns holds exactly the identifiers reachable
    from the target: the target itself, and every item that the
    dependencies of a record named after a reachable identifier could
    yield when [dfs] was called. *)
Theorem dfs_collects_reachable (self : Updates) (target : string)
    (result : list string) :
  snd (dfs self target) = Some (Return result) ->
  forall x, In x result <-> reachable (package_updates self) target x.
Proof. apply dfs_result_reachable. Qed.

Lemma dfs_collects_reachable_witness :
  In "x" ["a"; "c"; "b"; "x"; "c"] <->
  reachable (package_updates cyclic_catalog) "a" "x".
Proof.
  apply (dfs_collects_reachable cyclic_catalog "a").
  vm_compute; reflexivity.
Defined.

(** X15: an index built with the list [dfs] returned as the candidates
    of one module holds the target and exactly the identifiers reachable
    from it. *)
Theorem dfs_result_as_candidates (self : Updates) (target module_name : string)
    (packages : list string) :
  snd (dfs self target) = Some (Return packages) ->
  has_package (init [(module_name, packages)]) target = true
  /\ forall q,
      has_package (init [(module_name, packages)]) q = true <->
      reachable (package_updates self) target q.
Proof.
  intros Hdfs.
  assert (Hheld : forall q,
             has_package (init [(module_name, packages)]) q = true <->
             In q packages).
  { intros q; rewrite init_has_package_iff; split.
    - intros (m & l & [[= <- <-] | []] & Hq); exact Hq.
    - intros Hq; exists module_name, packages; split; [now left | exact Hq]. }
  split.
  - apply Hheld, (dfs_result_reachable _ _ _ Hdfs); constructor.
  - intros q; rewrite Hheld; apply (dfs_result_reachable _ _ _ Hdfs).
Qed.

Lemma dfs_result_as_candidates_witness :
  has_package (init [("a", ["a"; "c"; "b"; "x"; "c"])]) "a" = true
  /\ forall q,
      has_package (init [("a", ["a"; "c"; "b"; "x"; "c"])]) q = true <->
      reachable (package_updates cyclic_catalog) "a" q.
Proof.
  apply (dfs_result_as_candidates cyclic_catalog "a" "a").
  vm_compute; reflexivity.
Defined.

(** ** A second [dfs] on a parsed catalog *)

Lemma dfs_scan_exhausts (next : string) (entries : list PackageUpdate) :
  forall filo visited entries' filo' visited',
    Forall as_parsed entries ->
    dfs_scan next entries filo visited
      = (entries', Return (filo', visited')) ->
    Forall as_parsed entries'
    /\ Forall2
         (fun e e' =>
            name e' = name e
            /\ (name e = next -> dependencies e' = Some (PyGen []))
            /\ (name e <> next -> e' = e))
         entries entries'.
Proof.
  induction entries as [| entry rest IH];
    intros filo visited entries' filo' visited' Hall; cbn [dfs_scan].
  - intros [= <- _ _]; split; constructor.
  - inversion Hall as [| ? ? Hentry Hrest]; subst.
    destruct (String.eqb_spec (name entry) next) as [Hname | Hname].
    + destruct (dependencies entry) as [q |] eqn:Hq; [| discriminate].
      unfold as_parsed in Hentry; rewrite Hq in Hentry.
      destruct Hentry as [Hnone | (l & Hgen)]; [discriminate |].
      injection Hgen as ->; cbn [iterate].
      destruct (dfs_scan next rest _ _) as [rest' r] eqn:Hscan.
      intros [= <- ->].
      destruct (IH _ _ _ _ _ Hrest Hscan) as (Hall' & HF).
      split; constructor; try assumption.
      * right; now exists [].
      * split; [reflexivity | split; [reflexivity | congruence]].
    + destruct (dfs_scan next rest filo visited) as [rest' r] eqn:Hscan.
      intros [= <- ->].
      destruct (IH _ _ _ _ _ Hrest Hscan) as (Hall' & HF).
      split; constructor; try assumption.
      split; [reflexivity | split; [contradiction | reflexivity]].
Qed.

Lemma dfs_loop_exhausts (fuel : nat) :
  forall entries filo packages visited entries' result,
    Forall as_parsed entries ->
    (forall e, In e entries -> In (name e) packages ->
               dependencies e = Some (PyGen [])) ->
    dfs_loop fuel entries filo packages visited
      = (entries', Some (Return result)) ->
    forall e, In e entries' -> In (name e) result ->
              dependencies e = Some (PyGen []).
Proof.
  induction fuel as [| fuel IH];
    intros entries filo packages visited entries' result Hall Hdone.
  - destruct filo; cbn [dfs_loop]; [| discriminate].
    now intros [= <- <-].
  - destruct filo as [| next filo]; cbn [dfs_loop]; [now intros [= <- <-] |].
    destruct (dfs_scan next entries filo visited)
      as [entries1 [[filo1 visited1] | e]] eqn:Hscan; [| discriminate].
    destruct (dfs_scan_exhausts _ _ _ _ _ _ _ Hall Hscan) as (Hall1 & HF).
    apply IH; [exact Hall1 |].
    intros e1 He1 Hin.
    destruct (Forall2_In_r _ _ _ e1 HF He1) as (e & He & Hn & Hnext & Hsame).
    destruct (String.eqb_spec (name e) next) as [Heq | Hne]; [auto |].
    rewrite (Hsame Hne) in *.
    apply Hdone; [exact He |].
    apply in_app_or in Hin as [Hin | [Hin | []]]; [exact Hin | congruence].
Qed.

Lemma dfs_scan_exhausted (next : string) (entries : list PackageUpdate) :
  (forall e, In e entries -> name e = next ->
             dependencies e = Some (PyGen [])) ->
  forall filo visited,
    exists visited',
      dfs_scan next entries filo visited = (entries, Return (filo, visited')).
Proof.
  induction entries as [| entry rest IH]; intros Hdone filo visited;
    cbn [dfs_scan]; [now exists visited |].
  destruct (String.eqb_spec (name entry) next) as [Hname | Hname].
  - rewrite (Hdone entry (or_introl eq_refl) Hname); cbn [iterate].
    unfold push_unvisited; cbn [fold_left].
    destruct (IH (fun e He => Hdone e (or_intror He)) filo (visited ++ [next]))
      as [visited' ->].
    exists visited'; f_equal; f_equal.
    pose proof (Hdone entry (or_introl eq_refl) Hname) as Hd.
    destruct entry; cbn in *; now subst.
  - destruct (IH (fun e He => Hdone e (or_intror He)) filo visited)
      as [visited' ->].
    now exists visited'.
Qed.

Lemma dfs_again (self self' : Updates) (target : string)
    (result : list string) :
  Forall as_parsed (package_updates self) ->
  dfs self target = (self', Some (Return result)) ->
  In target result
  /\ forall x, In x result -> dfs self' x = (self', Some (Return [x])).
Proof.
  intros Hall Hdfs; split.
  { assert (H : snd (dfs self target) = Some (Return result))
      by now rewrite Hdfs.
    apply (dfs_result_reachable _ _ _ H); constructor. }
  intros x Hx; rewrite dfs_unfold in Hdfs.
  destruct (dfs_loop (dfs_fuel (package_updates self)) (package_updates self)
              [target] [] []) as [entries' r] eqn:Hloop.
  cbn [fst snd] in Hdfs; injection Hdfs as <- ->.
  assert (Hdone : forall e, In e entries' -> name e = x ->
                            dependencies e = Some (PyGen [])).
  { intros e He Hn.
    assert (Hnil : forall e0, In e0 (package_updates self) ->
                     In (name e0) [] -> dependencies e0 = Some (PyGen []))
      by (intros e0 _ []).
    apply (dfs_loop_exhausts _ _ _ _ _ _ _ Hall Hnil Hloop e He).
    now rewrite Hn. }
  rewrite dfs_unfold; cbn [package_updates application_name
    application_version].
  unfold dfs_fuel; cbn [weight Nat.add dfs_loop].
  destruct (dfs_scan_exhausted x entries' Hdone [] []) as [visited' ->].
  destruct (total_deps entries' * _); reflexivity.
Qed.

(** X16: on a catalog as [fromstring] makes it, where the dependencies
    are generators, [dfs] can be asked once: after a call that returned,
    a call for the same target, or for any identifier of the list
    returned, gives that identifier alone and leaves the catalog as it
    is. *)
Theorem dfs_second_call (self self' : Updates) (target : string)
    (result : list string) :
  Forall as_parsed (package_updates self) ->
  dfs self target = (self', Some (Return result)) ->
  In target result
  /\ forall x, In x result -> dfs self' x = (self', Some (Return [x])).
Proof. apply dfs_again. Qed.

Lemma dfs_second_call_witness :
  In "qt.charts" ["qt.charts"; "qt.tools"; "qt.base"; "qt.tools"]
  /\ forall x,
      In x ["qt.charts"; "qt.tools"; "qt.base"; "qt.tools"] ->
      dfs (fst (dfs tools_catalog "qt.charts")) x
      = (fst (dfs tools_catalog "qt.charts"), Some (Return [x])).
Proof.
  apply (dfs_second_call tools_catalog (fst (dfs tools_catalog "qt.charts"))
           "qt.charts").
  - constructor; [right; eexists; reflexivity |].
    constructor; [right; eexists; reflexivity | constructor].
  - vm_compute; reflexivity.
Defined.

Lemma fromstring_root_as_parsed (update_xml : Element) (u : Updates) :
  fromstring_root update_xml = Return u ->
  Forall as_parsed (package_updates u).
Proof.
  unfold fromstring_root.
  destruct (find "ApplicationName" update_xml) as [an |]; [| discriminate].
  destruct (find "ApplicationVersion" update_xml) as [av |]; [| discriminate].
  intros [= <-]; cbn [package_updates].
  apply Forall_forall; intros p Hp.
  apply in_map_iff in Hp as (e & <- & _).
  unfold as_parsed, fromstring_entry, _get_list; cbn [dependencies].
  destruct (find "Dependencies" e) as [c |]; [| now left].
  destruct (text c); [right; eexists; reflexivity | now left].
Qed.

(** X17: parse a document, ask [dfs] for a target and, when that has
    returned, ask again: the second answer is the target alone, whatever
    the first one was. *)
Theorem fromstring_dfs_twice (update_xml : Element) (u u' : Updates)
    (target : string) (result : list string) :
  fromstring_root update_xml = Return u ->
  dfs u target = (u', Some (Return result)) ->
  dfs u' target = (u', Some (Return [target])).
Proof.
  intros Hparse Hdfs.
  destruct (dfs_again _ _ _ _ (fromstring_root_as_parsed _ _ Hparse) Hdfs)
    as [Hin Hagain].
  exact (Hagain target Hin).
Qed.

Lemma fromstring_dfs_twice_witness :
  dfs (fst (dfs tools_catalog "qt.charts")) "qt.charts"
  = (fst (dfs tools_catalog "qt.charts"), Some (Return ["qt.charts"])).
Proof.
  apply (fromstring_dfs_twice tools_document tools_catalog
           (fst (dfs tools_catalog "qt.charts")) "qt.charts"
           ["qt.charts"; "qt.tools"; "qt.base"; "qt.tools"]).
  - reflexivity.
  - vm_compute; reflexivity.
Defined.

(** ** When [dfs] raises *)

Lemma dfs_scan_none (next : string) (entries : list PackageUpdate) :
  forall filo visited entries' r,
    dfs_scan next entries filo visited = (entries', r) ->
    Forall2
      (fun e e' =>
         name e' = name e
         /\ (dependencies e' = None <-> dependencies e = None))
      entries entries'
    /\ ((exists st, r = Return st) ->
        forall e, In e entries -> name e = next -> dependencies e <> None).
Proof.
  induction entries as [| entry rest IH]; intros filo visited entries' r;
    cbn [dfs_scan].
  - intros [= <- <-]; split; [constructor | intros _ e []].
  - destruct (String.eqb_spec (name entry) next) as [Hname | Hname].
    + destruct (dependencies entry) as [q |] eqn:Hq.
      * destruct (iterate q) as [items q'].
        destruct (dfs_scan next rest _ _) as [rest' r'] eqn:Hscan.
        intros [= <- <-].
        destruct (IH _ _ _ _ Hscan) as (HF & Hsome).
        split.
        -- constructor; [| exact HF].
           split; [reflexivity |]; cbn [dependencies]; rewrite Hq.
           split; discriminate.
        -- intros Hret e [<- | He] Hn; [congruence | now apply Hsome].
      * intros [= <- <-]; split.
        -- apply Forall2_same; intros e; split; reflexivity.
        -- intros (st & Hst); discriminate.
    + destruct (dfs_scan next rest filo visited) as [rest' r'] eqn:Hscan.
      intros [= <- <-].
      destruct (IH _ _ _ _ Hscan) as (HF & Hsome).
      split.
      * constructor; [| exact HF]; split; reflexivity.
      * intros Hret e [<- | He] Hn; [contradiction | now apply Hsome].
Qed.

Lemma dfs_none_invariant_start (entries0 : list PackageUpdate) :
  dfs_none_invariant entries0 entries0 [].
Proof.
  split; [| intros e0 _ []].
  apply Forall2_same; intros e; split; reflexivity.
Qed.

Lemma dfs_none_invariant_step (entries0 entries entries' : list PackageUpdate)
    (next : string) (filo packages visited filo' visited' : list string) :
  dfs_none_invariant entries0 entries packages ->
  dfs_scan next entries filo visited = (entries', Return (filo', visited')) ->
  dfs_none_invariant entries0 entries' (packages ++ [next]).
Proof.
  intros [HF Hsome] Hscan.
  destruct (dfs_scan_none _ _ _ _ _ _ Hscan) as (HS & Hnext).
  split.
  - refine (Forall2_compose _ _ _ _ _ _ _ HF HS).
    intros e0 e e1 (Hn & Hnone) (Hn1 & Hnone1).
    split; [congruence | now rewrite Hnone1].
  - intros e0 He0 Hin.
    apply in_app_or in Hin as [Hin | [Hin | []]]; [auto |].
    destruct (Forall2_In_l _ _ _ e0 HF He0) as (e & He & Hn & Hnone).
    intros H0; apply Hnone in H0.
    refine (Hnext _ e He _ H0); [now eexists | congruence].
Qed.

(** How the loop ends, from a state the two invariants hold of: with a
    list that names no record without dependencies, or with an error at a
    reachable record without dependencies. *)
Lemma dfs_loop_outcome (entries0 : list PackageUpdate) (target : string)
    (fuel : nat) :
  forall entries filo packages visited entries' out,
    dfs_invariant entries0 target entries filo packages visited ->
    dfs_none_invariant entries0 entries packages ->
    dfs_loop fuel entries filo packages visited = (entries', Some out) ->
    match out with
    | Return result =>
        forall e0, In e0 entries0 -> In (name e0) result ->
                   dependencies e0 <> None
    | Raise _ =>
        exists e0,
          In e0 entries0 /\ reachable entries0 target (name e0)
          /\ dependencies e0 = None
    end.
Proof.
  induction fuel as [| fuel IH];
    intros entries filo packages visited entries' out Hinv Hnone.
  - destruct filo; cbn [dfs_loop]; [| discriminate].
    intros [= _ <-]; apply Hnone.
  - destruct filo as [| next filo]; cbn [dfs_loop];
      [intros [= _ <-]; apply Hnone |].
    destruct (dfs_scan next entries filo visited)
      as [entries1 [[filo1 visited1] | e]] eqn:Hscan.
    + apply IH.
      * exact (dfs_invariant_step _ _ _ _ _ _ _ _ _ _ Hinv Hscan).
      * exact (dfs_none_invariant_step _ _ _ _ _ _ _ _ _ Hnone Hscan).
    + intros [= _ <-].
      destruct (dfs_scan_raise _ _ _ _ _ _ Hscan)
        as (_ & entry & Hentry & Hname & Hdeps).
      destruct Hnone as [HF _].
      destruct (Forall2_In_r _ _ _ entry HF Hentry) as (e0 & He0 & Hn & Hiff).
      exists e0; split; [exact He0 | split; [| now apply Hiff]].
      destruct Hinv as (_ & _ & Hreach & _).
      rewrite <- Hn, Hname; apply Hreach; right; now left.
Qed.

(** X18: [dfs] raises, and then [TypeError], exactly when an identifier
    reachable from the target names a record without dependencies; in
    every other case it returns its list. *)
Theorem dfs_raises_iff (self : Updates) (target : string) :
  (snd (dfs self target) = Some (Raise TypeError) <->
   exists entry,
     In entry (package_updates self)
     /\ reachable (package_updates self) target (name entry)
     /\ dependencies entry = None)
  /\ (snd (dfs self target) = Some (Raise TypeError)
      \/ exists result, snd (dfs self target) = Some (Return result)).
Proof.
  rewrite dfs_unfold; cbn [snd].
  destruct (dfs_loop_ends_within_fuel (package_updates self) target)
    as (entries' & out & Hloop).
  pose proof (dfs_loop_outcome _ _ _ _ _ _ _ _ _
                (dfs_invariant_start (package_updates self) target)
                (dfs_none_invariant_start (package_updates self)) Hloop)
    as Hout.
  rewrite Hloop; cbn [snd].
  destruct out as [result | e].
  - split; [| right; now exists result].
    split; [discriminate |].
    intros (entry & Hentry & Hreach & Hdeps); exfalso.
    apply (Hout entry Hentry); [| exact Hdeps].
    assert (H : snd (dfs self target) = Some (Return result))
      by (unfold dfs; now rewrite Hloop).
    now apply (dfs_result_reachable _ _ _ H).
  - assert (e = TypeError) as -> by now apply dfs_loop_raise in Hloop.
    split; [| now left].
    split; [intros _; exact Hout | reflexivity].
Qed.

Lemma dfs_raises_iff_witness :
  exists entry,
    In entry (package_updates chain_catalog)
    /\ reachable (package_updates chain_catalog) "qt.charts" (name entry)
    /\ dependencies entry = None.
Proof.
  apply (proj1 (proj1 (dfs_raises_iff chain_catalog "qt.charts"))).
  vm_compute; reflexivity.
Defined.
